(** * RAGChecker parameter analysis: a shallow embedding of
      [analysis/parameter_analysis.py]

    The development follows the Python module phase by phase.  A pandas
    [DataFrame] built by [build_dataframe] is a list of row dictionaries; a
    key that is absent from a row is the cell pandas shows as NaN.  Floating
    point numbers are read as exact rationals ([Q]); rounding is not part of
    the model.  What the module obtains from scikit-learn, SHAP, Optuna,
    NumPy and SciPy enters as section variables. *)

From Stdlib Require Import QArith Qabs Qround Lqa.
From stdpp Require Import gmap strings list fin_maps sorting pretty.

(** ** Python values held by a run record *)

Inductive pyval :=
  | PInt (z : Z)
  | PFloat (q : Q)
  | PStr (s : string).

(** A row of the frame: column name to cell, absent meaning NaN. *)
Abbreviation Row := (gmap string pyval).
Abbreviation DataFrame := (list (gmap string pyval)).
(** A pandas Series with its missing cells. *)
Abbreviation Series := (list (option pyval)).
(** The encoded table: ordered columns of float cells ([None] is NaN). *)
Abbreviation FeatureTable := (list (string * list (option Q))).

Definition num_of (v : pyval) : option Q :=
  match v with
  | PInt z => Some (inject_Z z)
  | PFloat q => Some q
  | PStr _ => None
  end.

Definition is_num (v : pyval) : bool :=
  match num_of v with Some _ => true | None => false end.

(** Python's [==] on cell values: numbers by value, strings by content. *)
Definition py_eqb (a b : pyval) : bool :=
  match a, b with
  | PStr s, PStr t => String.eqb s t
  | PStr _, _ | _, PStr _ => false
  | _, _ =>
      match num_of a, num_of b with
      | Some x, Some y => Qeq_bool x y
      | _, _ => false
      end
  end.

(** ** Series helpers: [df[c]], [dropna], [unique], [nunique] *)

Definition col (df : DataFrame) (c : string) : Series :=
  (λ r : Row, r !! c) <$> df.

Definition dropna (s : Series) : list pyval := omap id s.

(** [pd.api.types.is_numeric_dtype]: the column holds no string. *)
Definition is_numeric_dtype (s : Series) : bool := forallb is_num (dropna s).

(** [Series.unique()], in order of first appearance. *)
Fixpoint unique (l : list pyval) : list pyval :=
  match l with
  | [] => []
  | x :: l' => x :: List.filter (λ y, negb (py_eqb x y)) (unique l')
  end.

Definition nunique (s : Series) : nat := length (unique (dropna s)).

(** The numeric cells of a column, as floats. *)
Definition floats (s : Series) : list (option Q) := (λ o, o ≫= num_of) <$> s.
Definition values (s : list (option Q)) : list Q := omap id s.

(** ** Sorting as Python does it: stable, by a "comes no later" test *)

Fixpoint insert_by {A} (le : A → A → bool) (x : A) (l : list A) : list A :=
  match l with
  | [] => [x]
  | y :: l' => if le x y then x :: y :: l' else y :: insert_by le x l'
  end.

Definition py_sorted {A} (le : A → A → bool) (l : list A) : list A :=
  foldr (insert_by le) [] l.

(** ** Means and medians, skipping NaN *)

Definition Qsum (l : list Q) : Q := foldr Qplus 0%Q l.

Definition mean (l : list Q) : option Q :=
  match l with
  | [] => None
  | _ => Some (Qsum l / inject_Z (Z.of_nat (length l)))%Q
  end.

Definition median (l : list Q) : option Q :=
  let s := py_sorted Qle_bool l in
  let n := length s in
  if Nat.eqb n 0 then None
  else if Nat.odd n then s !! (n / 2)%nat
  else match s !! (n / 2 - 1)%nat, s !! (n / 2)%nat with
       | Some a, Some b => Some ((a + b) / 2)%Q
       | _, _ => None
       end.

(** Sample variance (ddof = 1); [Series.std()] is its square root, and the
    square root is monotone, so ordering by one orders by the other. *)
Definition variance (l : list Q) : option Q :=
  match mean l with
  | Some m =>
      if (length l <=? 1)%nat then None
      else Some (Qsum ((λ x, (x - m) * (x - m))%Q <$> l)
                 / inject_Z (Z.of_nat (length l - 1)))%Q
  | None => None
  end.

(** The target metric of a run; metrics are floats or NaN. *)
Definition metric (target : string) (r : Row) : option Q := r !! target ≫= num_of.

(** A printer for floats used when the development is run on examples. *)
Definition demo_repr (q : Q) : string :=
  let r := Qred q in
  if Pos.eqb (Qden r) 1 then pretty (Qnum r) +:+ ".0"
  else pretty (Qnum r) +:+ "/" +:+ pretty (Zpos (Qden r)).

(** The searchable domain of one parameter ([ParamSpec] entries). *)
Inductive param_spec :=
  | Categorical (choices : list string)
  | IntRange (lo hi : Z)
  | FloatRange (lo hi : Q).

(** ** Example runs *)

Definition run (mode : string) (k : Q) (f1 : option Q) : gmap string pyval :=
  let r := <["query_mode" := PStr mode]> (<["param_k" := PFloat k]> ∅) in
  match f1 with
  | Some x => <["llm_f1" := PFloat x]> r
  | None => r
  end.

Definition example_cols : list string := ["query_mode"; "param_k"].

(** Six runs, two query modes, the last run without a score. *)
Definition runs_two_modes : DataFrame :=
  [run "local" 1 (Some 0.5%Q); run "hybrid" 2 (Some 0.7%Q);
   run "local" 3 (Some 0.4%Q); run "hybrid" 4 (Some 0.8%Q);
   run "local" 5 (Some 0.45%Q); run "hybrid" 6 None].

(** Six runs, three query modes; mode a was run once and scored best. *)
Definition runs_three_modes : DataFrame :=
  [run "a" 1 (Some 0.9%Q); run "b" 1 (Some 0.5%Q); run "b" 1 (Some 0.5%Q);
   run "b" 1 (Some 0.5%Q); run "c" 1 (Some 0.1%Q); run "c" 1 (Some 0.1%Q)].


(** An encoded table of three features and SHAP values of equal mean
    absolute size for all of them. *)
Definition tied_table : FeatureTable :=
  [("param_b", [Some 1%Q; Some 2%Q]); ("param_a", [Some 3%Q; Some 4%Q]);
   ("param_c", [Some 5%Q; Some 6%Q])].

Definition tied_shap_values : list (list Q) :=
  [[0.5; -0.5; 0.5]%Q; [-0.25; 0.25; 0.25]%Q].

(** Entry (i, j) of a matrix given as the list of its rows. *)
Definition entry (M : list (list Q)) (i j : nat) : Q := nth j (nth i M []) 0%Q.


(** A sampler that always proposes the low end of each distribution. *)
Definition low_end_sampler (i : nat) (c : string) (spec : param_spec) : pyval :=
  match spec with
  | Categorical (x :: _) => PStr x
  | Categorical [] => PStr ""
  | IntRange lo _ => PInt lo
  | FloatRange lo _ => PFloat lo
  end.

Section Analysis.

(** Python's [repr] of a float. *)
Variable float_repr : Q → string.

Definition py_str (v : pyval) : string :=
  match v with
  | PInt z => pretty z
  | PFloat q => float_repr q
  | PStr s => s
  end.

(** ** 0. [encode_features] *)

(** Category order of [pd.get_dummies]: numbers by value before strings,
    strings by code point. *)
Definition category_le (a b : pyval) : bool :=
  match num_of a, num_of b with
  | Some x, Some y => Qle_bool x y
  | Some _, None => true
  | None, Some _ => false
  | None, None => String.leb (py_str a) (py_str b)
  end.

Definition indicator (v : pyval) (c : option pyval) : option Q :=
  match c with
  | Some w => if py_eqb w v then Some 1%Q else Some 0%Q
  | None => Some 0%Q
  end.

(** [pd.get_dummies(s, prefix=prefix, dummy_na=False)] *)
Definition get_dummies (prefix : string) (s : Series) : FeatureTable :=
  (λ v, (prefix +:+ "_" +:+ py_str v, indicator v <$> s))
    <$> py_sorted category_le (unique (dropna s)).

(** [s.fillna(s.median())]: an undefined median fills nothing. *)
Definition fillna_median (s : list (option Q)) : list (option Q) :=
  let m := median (values s) in
  (λ c, match c with Some x => Some x | None => m end) <$> s.

Definition encode_features (df : DataFrame) (feature_cols : list string)
  : FeatureTable :=
  let numeric := List.filter (λ c, is_numeric_dtype (col df c)) feature_cols in
  let object := List.filter (λ c, negb (is_numeric_dtype (col df c))) feature_cols in
  ((λ c, (c, fillna_median (floats (col df c)))) <$> numeric)
    ++ (object ≫= (λ c, get_dummies c (col df c))).

(** ** 2. [phase2_shap]: what is handed to [model.fit] *)

Definition fillna0 (s : list (option Q)) : list Q := (λ c, default 0%Q c) <$> s.

Definition table_empty (X : FeatureTable) (n_rows : nat) : bool :=
  Nat.eqb n_rows 0 || Nat.eqb (length X) 0.

Definition phase2_fit_inputs (df : DataFrame) (feature_cols : list string)
    (target : string) : option (FeatureTable * list Q) :=
  let X := encode_features df feature_cols in
  let y := fillna0 (metric target <$> df) in
  if table_empty X (length df) || (length df <? 2)%nat || Nat.eqb (length X) 0
  then None
  else Some (X, y).

(** [np.abs(shap_values).mean(axis=0)], one entry per column of [X]. *)
Definition mean_abs (n_features : nat) (shap_values : list (list Q)) : list Q :=
  (λ j, (Qsum ((λ row, Qabs (nth j row 0%Q)) <$> shap_values)
         / inject_Z (Z.of_nat (length shap_values)))%Q) <$> seq 0 n_features.

(** [imp_df]: features with their importance, sorted ascending by
    [sort_values("importance")].  The sort sees the importance column only;
    it is modelled as a stable sort, which is what NumPy's quicksort does on
    the few columns of a feature table. *)
Definition imp_df (X : FeatureTable) (shap_values : list (list Q))
  : list (string * Q) :=
  py_sorted (λ a b, Qle_bool a.2 b.2)
            (zip X.*1 (mean_abs (length X) shap_values)).

(** The printed ranking, most important first: [imp_df.iloc[::-1]]. *)
Definition importance_ranking (X : FeatureTable) (shap_values : list (list Q))
  : list (string * Q) :=
  reverse (imp_df X shap_values).

(** ** 3. [_infer_param_space] and [_suggest_next] *)

Definition Qlt_bool (x y : Q) : bool := negb (Qle_bool y x).

(** [series == series.round()] on one value. *)
Definition is_whole (q : Q) : bool := Qeq_bool q (inject_Z (Qfloor q)).

(** Python's [int(x)] on a float: truncation towards zero. *)
Definition py_int (q : Q) : Z := Z.quot (Qnum q) (Zpos (Qden q)).

Definition Qminimum (l : list Q) : Q :=
  match l with
  | [] => 0%Q
  | x :: l' => foldl (λ a b, if Qlt_bool b a then b else a) x l'
  end.

Definition Qmaximum (l : list Q) : Q :=
  match l with
  | [] => 0%Q
  | x :: l' => foldl (λ a b, if Qlt_bool a b then b else a) x l'
  end.

(** One iteration of the loop of [_infer_param_space]; [None] is [continue]. *)
Definition infer_spec (s : Series) : option param_spec :=
  let series := dropna s in
  if Nat.eqb (length series) 0 then None
  else if negb (is_numeric_dtype s) || (nunique s <=? 5)%nat then
    Some (Categorical (py_sorted String.leb (py_str <$> unique series)))
  else
    let xs := omap num_of series in
    if forallb is_whole xs && (nunique s <=? 30)%nat then
      let lo := py_int (Qminimum xs) in
      let hi := py_int (Qmaximum xs) in
      Some (if (lo <? hi)%Z then IntRange lo hi
            else Categorical [py_str (PInt lo)])
    else
      let lo := Qminimum xs in
      let hi := Qmaximum xs in
      Some (if Qlt_bool lo hi then FloatRange lo hi
            else Categorical [py_str (PFloat lo)]).

Definition _infer_param_space (df : DataFrame) (feature_cols : list string)
  : gmap string param_spec :=
  foldl (λ space c,
           match infer_spec (col df c) with
           | Some spec => <[c := spec]> space
           | None => space
           end) ∅ feature_cols.

(** An Optuna trial as the module reads it. *)
Record trial := Trial { params : gmap string pyval; value : option Q }.

(** [str(row.get(c, ""))] on a frame row: a NaN cell prints as nan. *)
Definition cell_str (o : option pyval) : string :=
  match o with Some v => py_str v | None => "nan" end.

Definition row_key (feature_cols : list string) (r : Row) : list string :=
  (λ c, cell_str (r !! c)) <$> feature_cols.

(** [tuple(str(p.get(c, "")) for c in feature_cols)] on a parameter dict. *)
Definition config_key (feature_cols : list string) (p : gmap string pyval)
  : list string :=
  (λ c, match p !! c with Some v => py_str v | None => "" end) <$> feature_cols.

(** A suggested configuration and a historical run agree parameter by
    parameter, by Python's [==] on each feature column. *)
Definition same_configuration (feature_cols : list string) (cand r : Row) : bool :=
  forallb (λ c, match cand !! c, r !! c with
                | Some v, Some w => py_eqb v w
                | None, None => true
                | _, _ => false
                end) feature_cols.

Definition existing_keys (df_existing : DataFrame) (feature_cols : list string)
  : gset (list string) :=
  list_to_set (row_key feature_cols <$> df_existing).

(** The TPE sampler of the dummy study: the value suggested in the i-th
    asked trial for a parameter and its distribution. *)
Variable suggest : nat → string → param_spec → pyval.
(** [float(s)] on a string; [None] is ValueError. *)
Variable float_of_string : string → option Q.
(** [surrogate_model.predict] on one encoded row. *)
Variable predict : list (option Q) → Q.

Definition ask_and_suggest (space : gmap string param_spec) (i : nat)
  : gmap string pyval :=
  map_imap (λ c spec, Some (suggest i c spec)) space.

Definition sample_candidates (space : gmap string param_spec)
    (feature_cols : list string) (n : Z) (existing : gset (list string))
  : list (gmap string pyval) :=
  List.filter (λ p, bool_decide (config_key feature_cols p ∉ existing))
              (ask_and_suggest space <$> seq 0 (Z.to_nat (n * 40))).

Definition py_float (v : pyval) : option Q :=
  match v with
  | PStr s => float_of_string s
  | _ => num_of v
  end.

(** One cell of [row_enc]; the outer [None] is the ValueError of [float]. *)
Definition encode_cell (feature_cols : list string) (cand : gmap string pyval)
    (column : string * list (option Q)) : option (option Q) :=
  match List.find (λ fc, String.prefix (fc +:+ "_") column.1) feature_cols with
  | Some fc =>
      let prefix := fc +:+ "_" in
      let cat_val :=
        String.substring (String.length prefix)
                         (String.length column.1 - String.length prefix) column.1 in
      Some (Some (if String.eqb (match cand !! fc with
                                 | Some v => py_str v | None => "" end) cat_val
                  then 1%Q else 0%Q))
  | None =>
      match cand !! column.1 with
      | Some v => Some <$> py_float v
      | None => Some (median (values column.2))
      end
  end.

Definition score_candidate (X_train : FeatureTable) (feature_cols : list string)
    (cand : gmap string pyval) : option (gmap string pyval * Q) :=
  row_enc ← mapM (encode_cell feature_cols cand) X_train;
  Some (cand, predict row_enc).

Fixpoint dedupe (feature_cols : list string) (seen : gset (list string))
    (scored : list (gmap string pyval * Q)) : list (gmap string pyval * Q) :=
  match scored with
  | [] => []
  | (cand, score) :: rest =>
      let key := config_key feature_cols cand in
      if decide (key ∈ seen) then dedupe feature_cols seen rest
      else (cand, score) :: dedupe feature_cols ({[key]} ∪ seen) rest
  end.

(** The fallback loop over the trials sorted by value. *)
Fixpoint fallback_loop (feature_cols : list string) (existing : gset (list string))
    (n : Z) (trials : list trial) (result : list (gmap string pyval * Q))
  : list (gmap string pyval * Q) :=
  match trials with
  | [] => result
  | t :: rest =>
      match value t with
      | None => fallback_loop feature_cols existing n rest result
      | Some v =>
          let result' :=
            if decide (config_key feature_cols (params t) ∈ existing) then result
            else result ++ [(params t, v)] in
          if (n <=? Z.of_nat (length result'))%Z then result'
          else fallback_loop feature_cols existing n rest result'
      end
  end.

(** [_suggest_next]; [None] is the ValueError raised while scoring. *)
Definition _suggest_next (study_trials : list trial)
    (space : gmap string param_spec) (surrogate : option FeatureTable)
    (feature_cols : list string) (n : Z) (df_existing : DataFrame)
  : option (list (gmap string pyval * Q)) :=
  let existing := existing_keys df_existing feature_cols in
  let candidates := sample_candidates space feature_cols n existing in
  match candidates with
  | [] => Some []
  | _ =>
      match surrogate with
      | Some X_train =>
          scored ← mapM (score_candidate X_train feature_cols) candidates;
          let sorted := py_sorted (λ a b, Qle_bool b.2 a.2) scored in
          Some (take (Z.to_nat n) (dedupe feature_cols ∅ sorted))
      | None =>
          Some (fallback_loop feature_cols existing n
                  (py_sorted (λ a b, Qle_bool (default 0%Q (value b))
                                              (default 0%Q (value a)))
                             study_trials) [])
      end
  end.

(** ** 4. [phase4_dowhy] *)

Inductive decline_reason :=
  | DowhyMissing
  | TooFewRuns (n : nat)
  | NoTreatmentFeature.

Inductive outcome :=
  | Declined (reason : decline_reason)
  | Raised (exc : string)
  | Estimating (treatment_col : string) (df_dw : DataFrame).

(** Truth value of a Python string. *)
Definition truthy (s : string) : bool := negb (String.eqb s "").

Definition binary_feats (df : DataFrame) (feature_cols : list string) : list string :=
  List.filter (λ c, Nat.eqb (nunique (col df c)) 2) feature_cols.

Definition cat_feats (df : DataFrame) (feature_cols : list string) : list string :=
  List.filter (λ c, negb (is_numeric_dtype (col df c))
                    && (2 <=? nunique (col df c))%nat) feature_cols.

(** [df.loc[df[feat] == val, target].dropna()] *)
Definition group (df : DataFrame) (feat : string) (val : pyval) (target : string)
  : list Q :=
  omap (λ r : Row,
          match r !! feat with
          | Some w => if py_eqb w val then metric target r else None
          | None => None
          end) df.

Definition overall_mean (df : DataFrame) (target : string) : option Q :=
  mean (omap (metric target) df).

(** [grp.mean() - overall_mean] for a group of at least two runs. *)
Definition delta (df : DataFrame) (target feat : string) (val : pyval) : option Q :=
  let grp := group df feat val target in
  if (2 <=? length grp)%nat then
    match mean grp, overall_mean df target with
    | Some m, Some o => Some (m - o)%Q
    | _, _ => None
    end
  else None.

(** The body of the inner loop over the categories of [feat]. *)
Definition consider (df : DataFrame) (target feat : string)
    (best : option string * option pyval * Q) (val : pyval)
  : option string * option pyval * Q :=
  match delta df target feat val with
  | Some d => if Qlt_bool best.2 d then (Some feat, Some val, d) else best
  | None => best
  end.

Definition best_category (df : DataFrame) (target : string) (feats : list string)
  : option string * option pyval * Q :=
  foldl (λ best feat,
           foldl (consider df target feat) best (unique (dropna (col df feat))))
        (None, None, (-999)%Q) feats.

(** Sort key of the numeric candidates (see [variance]). *)
Definition std_key (df : DataFrame) (c : string) : Q :=
  default 0%Q (variance (values (floats (col df c)))).

Definition num_varying (df : DataFrame) (feature_cols : list string) : list string :=
  py_sorted (λ a b, Qle_bool (std_key df b) (std_key df a))
    (List.filter (λ c, is_numeric_dtype (col df c) && (1 <? nunique (col df c))%nat)
                 feature_cols).

(** Automatic treatment selection: the column and, for a category picked
    against the rest, the value that counts as 1. *)
Definition auto_treatment (df : DataFrame) (feature_cols : list string)
    (target : string) : option (string * option pyval) :=
  match binary_feats df feature_cols with
  | c :: _ => Some (c, None)
  | [] =>
      let by_category :=
        match cat_feats df feature_cols with
        | [] => None
        | feats =>
            match best_category df target feats with
            | (Some f, pos, _) => if truthy f then Some (f, pos) else None
            | _ => None
            end
        end in
      match by_category with
      | Some choice => Some choice
      | None =>
          match num_varying df feature_cols with
          | [] => None
          | c :: _ => Some (c, None)
          end
      end
  end.

(** [(s > s.median()).astype(int)]; a NaN cell is not above the median. *)
Definition bucket_numeric (s : Series) : Series :=
  let m := median (values (floats s)) in
  (λ c, Some (PInt (match c ≫= num_of, m with
                    | Some x, Some md => if Qlt_bool md x then 1 else 0
                    | _, _ => 0
                    end))) <$> s.

(** [(s == pos_val).astype(int)] *)
Definition one_vs_rest (pos : pyval) (s : Series) : Series :=
  (λ c, Some (PInt (match c with
                    | Some w => if py_eqb w pos then 1 else 0
                    | None => 0
                    end))) <$> s.

Fixpoint index_of (v : pyval) (l : list pyval) : option Z :=
  match l with
  | [] => None
  | x :: l' => if py_eqb x v then Some 0%Z else Z.succ <$> index_of v l'
  end.

(** [s.map({v: i for i, v in enumerate(sorted(s.dropna().unique()))})];
    [None] is the TypeError of [sorted] on numbers mixed with strings. *)
Definition ordinal (s : Series) : option Series :=
  let u := unique (dropna s) in
  if forallb is_num u || forallb (λ v, negb (is_num v)) u then
    let uniq := py_sorted category_le u in
    Some ((λ c, c ≫= (λ v, PInt <$> index_of v uniq)) <$> s)
  else None.

Definition set_column (df : DataFrame) (c : string) (s : Series) : DataFrame :=
  zip_with (λ (r : Row) cell,
              match cell with Some v => <[c := v]> r | None => delete c r end) df s.

(** The runs whose target metric is not missing. *)
Definition valid_runs (df : DataFrame) (target : string) : DataFrame :=
  List.filter (λ r, bool_decide (is_Some (metric target r))) df.

(** [df[feature_cols + [target]].copy().dropna(subset=[target])] *)
Definition df_dw (df : DataFrame) (feature_cols : list string) (target : string)
  : DataFrame :=
  (λ r : Row, filter (λ kv, kv.1 ∈ feature_cols ++ [target]) r)
    <$> valid_runs df target.

(** The treatment column made binary, lines 791 to 813. *)
Definition prepare (df : DataFrame) (feature_cols : list string) (target : string)
    (treatment_col : string) (pos : option pyval) : outcome :=
  let dw := df_dw df feature_cols target in
  if bool_decide (treatment_col ∉ feature_cols ++ [target]) then Raised "KeyError"
  else
    let s := col dw treatment_col in
    if is_numeric_dtype (col df treatment_col) then
      if (2 <? nunique s)%nat
      then Estimating treatment_col (set_column dw treatment_col (bucket_numeric s))
      else Estimating treatment_col dw
    else
      match pos with
      | Some v => Estimating treatment_col (set_column dw treatment_col (one_vs_rest v s))
      | None =>
          match ordinal s with
          | Some codes => Estimating treatment_col (set_column dw treatment_col codes)
          | None => Raised "TypeError"
          end
      end.

Definition phase4_dowhy (dowhy_installed : bool) (df : DataFrame)
    (feature_cols : list string) (target : string) (treatment_col : option string)
  : outcome :=
  if negb dowhy_installed then Declined DowhyMissing
  else if (length df <? 6)%nat then Declined (TooFewRuns (length df))
  else
    let requested :=
      match treatment_col with
      | Some t => if truthy t && bool_decide (t ∉ feature_cols) then None else Some t
      | None => None
      end in
    let choice :=
      match requested with
      | Some t => Some (t, None)
      | None => auto_treatment df feature_cols target
      end in
    match choice with
    | None => Declined NoTreatmentFeature
    | Some (tc, pos) => prepare df feature_cols target tc pos
    end.

(** *** The OLS estimate and its significance, lines 850 to 871 *)

(** [LinearRegression().fit(X, y)]: coefficients and intercept. *)
Variable lr_fit : list (list Q) → list Q → list Q * Q.
(** [np.linalg.inv]; [None] is LinAlgError (singular matrix). *)
Variable linalg_inv : list (list Q) → option (list (list Q)).
Variable np_sqrt : Q → Q.
(** [scipy.stats.t.sf(x, df)] *)
Variable t_sf : Q → Z → Q.







(** *** Vocabulary for the OLS step: singular matrices and inverses *)









(** *** Vocabulary for the selection policy *)

(** The (feature, category) pairs in the order the two loops of priority 2
    visit them. *)
Definition category_pairs (df : DataFrame) (feats : list string)
  : list (string * pyval) :=
  feats ≫= (λ f, (λ v, (f, v)) <$> unique (dropna (col df f))).

(** A category the loop can pick: a value of a non-numeric feature with at
    least two distinct values, met in at least two runs that have a target,
    whose mean target deviates from the overall mean by [d] > -999. *)
Definition eligible (df : DataFrame) (feature_cols : list string) (target : string)
    (f : string) (v : pyval) (d : Q) : Prop :=
  f ∈ cat_feats df feature_cols
  ∧ v ∈ unique (dropna (col df f))
  ∧ delta df target f v = Some d
  ∧ (-999 < d)%Q.

(** What the loop maintains over the pairs seen so far. *)
Definition best_inv (df : DataFrame) (target : string)
    (seen : list (string * pyval)) (best : option string * option pyval * Q)
  : Prop :=
  (∀ f v d, (f, v) ∈ seen → delta df target f v = Some d → (d <= best.2)%Q)
  ∧ (best = (None, None, (-999)%Q)
     ∨ ∃ f v, best.1 = (Some f, Some v) ∧ (f, v) ∈ seen
              ∧ delta df target f v = Some best.2 ∧ (-999 < best.2)%Q).

(** ** Further parts of the module *)

(** *** [_build_surrogate] *)

(** The estimator that is built, with the two arguments that depend on the
    sample count (the others are constants). *)
Inductive surrogate_config :=
  | XGBRegressor (n_estimators max_depth : Z)
  | RandomForestRegressor (n_estimators max_depth : Z).

(** [xgboost_installed] says whether [from xgboost import XGBRegressor]
    succeeds. *)
Definition _build_surrogate (xgboost_installed : bool) (model_type : string)
    (n_samples : Z) : surrogate_config :=
  if String.eqb model_type "xgb" && xgboost_installed then
    XGBRegressor (Z.min 300 (Z.max 50 (n_samples * 15)))
                 (Z.min 4 (Z.max 2 (n_samples - 1)))
  else
    RandomForestRegressor (Z.min 300 (Z.max 50 (n_samples * 15)))
                          (Z.max 2 (Z.min 5 (n_samples - 1))).

Definition n_estimators_of (m : surrogate_config) : Z :=
  match m with XGBRegressor n _ | RandomForestRegressor n _ => n end.

Definition max_depth_of (m : surrogate_config) : Z :=
  match m with XGBRegressor _ d | RandomForestRegressor _ d => d end.

(** *** [phase2_shap]: the printed bars and the top four features *)

(** [imp_df["importance"].max() or 1.0] *)
Definition max_imp (importances : list Q) : Q :=
  let m := Qmaximum importances in
  if Qeq_bool m 0 then 1%Q else m.

(** [int(row["importance"] / max_imp * 25)] *)
Definition bar_len (importances : list Q) (importance : Q) : Z :=
  py_int (importance / max_imp importances * 25)%Q.

(** [imp_df.tail(min(4, len(imp_df)))["feature"].tolist()] *)
Definition top4 (X : FeatureTable) (shap_values : list (list Q)) : list string :=
  let df := imp_df X shap_values in
  (drop (length df - Nat.min 4 (length df)) df).*1.

(** *** [_add_past_trials] *)

(** Python's two-argument [min] and [max]: the first argument unless the
    second is strictly smaller (larger). *)
Definition py_min (a b : Q) : Q := if Qlt_bool b a then b else a.
Definition py_max (a b : Q) : Q := if Qlt_bool a b then b else a.

(** The value stored for one parameter of one run; the outer [None] is an
    exception ([float] on a string that is no number, [choices[0]] on an empty
    list). *)
Definition past_param (spec : param_spec) (raw : option pyval) : option pyval :=
  match spec with
  | Categorical choices =>
      c0 ← head choices;
      let val := match raw with Some v => py_str v | None => c0 end in
      Some (PStr (if bool_decide (val ∈ choices) then val else c0))
  | IntRange lo hi =>
      val ← match raw with
            | Some v => py_int <$> py_float v
            | None => Some ((lo + hi) `div` 2)%Z
            end;
      Some (PInt (Z.max lo (Z.min hi val)))
  | FloatRange lo hi =>
      val ← match raw with
            | Some v => py_float v
            | None => Some ((lo + hi) / 2)%Q
            end;
      Some (PFloat (py_max lo (py_min hi val)))
  end.

(** The trial made of one run with a target. *)
Definition past_trial (space : gmap string param_spec) (r : Row) (target_val : Q)
  : option trial :=
  if bool_decide (map_Forall (λ c spec, is_Some (past_param spec (r !! c))) space)
  then Some (Trial (map_imap (λ c spec, past_param spec (r !! c)) space)
                   (Some target_val))
  else None.

(** [_add_past_trials]: the trials added to the study, in run order; the
    returned count is their number. *)
Definition _add_past_trials (df : DataFrame) (space : gmap string param_spec)
    (target : string) : option (list trial) :=
  mapM (λ r : Row, metric target r ≫= past_trial space r) (valid_runs df target).

(** A value that the distribution of a parameter accepts. *)
Definition in_domain (spec : param_spec) (v : pyval) : Prop :=
  match spec, v with
  | Categorical choices, PStr s => s ∈ choices
  | IntRange lo hi, PInt z => (lo ≤ z ≤ hi)%Z
  | FloatRange lo hi, PFloat q => (lo <= q <= hi)%Q
  | _, _ => False
  end.

(** *** [phase4_dowhy]: the verdict on a refutation check, line 915 *)

Definition refutation_passes (new_effect : option Q) (ate : Q) : bool :=
  match new_effect with
  | Some e => Qlt_bool (Qabs (e - ate)) (Qabs ate * 0.5)
  | None => false
  end.

(** ** [analysis/recompute_llm_metrics.py]: the metrics of one LLM run *)

(** Python's [str.lower]. *)
Variable str_lower : string → string.

(** [needle in haystack] *)
Definition contains (haystack needle : string) : bool :=
  match String.index 0 needle haystack with Some _ => true | None => false end.

Definition matches (retrieved expected : string) : bool :=
  let r := str_lower retrieved in
  let e := str_lower expected in
  String.eqb r e || contains r e.

Record run_metrics := RunMetrics {
  recall : Q; precision : Q; f1 : Q; hit : bool; mrr : Q
}.

(** The loop that sets [mrr]: the reciprocal rank of the first retrieved
    document that matches, counting from [i + 1]. *)
Fixpoint reciprocal_rank (is_match : string → bool) (i : nat)
    (retrieved : list string) : Q :=
  match retrieved with
  | [] => 0%Q
  | ret :: rest =>
      if is_match ret then (1 / inject_Z (Z.of_nat (i + 1)))%Q
      else reciprocal_rank is_match (S i) rest
  end.

Definition count_hits (retrieved expected : list string) : nat :=
  length (List.filter (λ exp, existsb (λ ret, matches ret exp) retrieved) expected).

Definition compute_run_metrics (retrieved expected : list string) : run_metrics :=
  match expected with
  | [] => RunMetrics 0 0 0 false 0
  | _ =>
      let hits := inject_Z (Z.of_nat (count_hits retrieved expected)) in
      let recall := (hits / inject_Z (Z.of_nat (length expected)))%Q in
      let precision :=
        match retrieved with
        | [] => 0%Q
        | _ => (hits / inject_Z (Z.of_nat (length retrieved)))%Q
        end in
      let f1 := if Qlt_bool 0 (recall + precision)
                then (2 * recall * precision / (recall + precision))%Q
                else 0%Q in
      RunMetrics recall precision f1
                 (0 <? count_hits retrieved expected)%nat
                 (reciprocal_rank (λ ret, existsb (λ exp, matches ret exp) expected)
                                  0 retrieved)
  end.

(** * Properties *)

(** ** Facts about columns and the helpers *)

Lemma length_col (df : DataFrame) c : length (col df c) = length df.
Proof. unfold col. by rewrite length_fmap. Qed.

Lemma col_all_missing (df : DataFrame) c :
  (∀ r, r ∈ df → r !! c = None) → col df c = replicate (length df) None.
Proof.
  induction df as [|r df IH]; intros Hmiss; [done|].
  cbn. rewrite (Hmiss r) by left. f_equal.
  apply IH. intros r' Hr'. apply Hmiss. by right.
Qed.

Lemma dropna_replicate_None n : dropna (replicate n None) = [].
Proof. induction n as [|n IH]; [done|]. exact IH. Qed.

Lemma floats_replicate_None n : floats (replicate n None) = replicate n None.
Proof. unfold floats. by rewrite fmap_replicate. Qed.

Lemma values_replicate_None n : values (replicate n (@None Q)) = [].
Proof. induction n as [|n IH]; [done|]. exact IH. Qed.

Lemma fillna_median_all_missing n :
  fillna_median (replicate n None) = replicate n None.
Proof.
  unfold fillna_median. rewrite values_replicate_None.
  change (median []) with (@None Q). by rewrite fmap_replicate.
Qed.

Lemma length_fillna_median s : length (fillna_median s) = length s.
Proof. unfold fillna_median. by rewrite length_fmap. Qed.

Lemma length_floats s : length (floats s) = length s.
Proof. unfold floats. by rewrite length_fmap. Qed.

Lemma encode_features_column_length (df : DataFrame) feature_cols column :
  column ∈ encode_features df feature_cols → length column.2 = length df.
Proof.
  unfold encode_features. rewrite elem_of_app. intros [Hnum|Hobj].
  - apply list_elem_of_fmap in Hnum as (c & -> & _). cbn.
    by rewrite length_fillna_median, length_floats, length_col.
  - apply list_elem_of_bind in Hobj as (c & Hin & _).
    unfold get_dummies in Hin.
    apply list_elem_of_fmap in Hin as (v & -> & _). cbn.
    by rewrite length_fmap, length_col.
Qed.

(** C10. A numeric column that is missing in every record stays entirely
    missing after [encode_features]: the median of a column without values
    is undefined, so [fillna] fills nothing and the encoded table is not
    free of missing values. *)
Theorem encode_features_keeps_all_missing_column
    (df : DataFrame) (feature_cols : list string) (c : string) :
  c ∈ feature_cols →
  df ≠ [] →
  (∀ r, r ∈ df → r !! c = None) →
  (c, replicate (length df) None) ∈ encode_features df feature_cols
  ∧ ∃ column, column ∈ encode_features df feature_cols ∧ None ∈ column.2.
Proof.
  intros Hc Hne Hmiss.
  assert (Hin : (c, replicate (length df) (@None Q))
                  ∈ encode_features df feature_cols).
  { unfold encode_features. apply elem_of_app. left.
    apply list_elem_of_fmap. exists c. split.
    - by rewrite (col_all_missing df c Hmiss), floats_replicate_None,
        fillna_median_all_missing.
    - apply list_elem_of_In, filter_In. split; [by apply list_elem_of_In|].
      unfold is_numeric_dtype.
      by rewrite (col_all_missing df c Hmiss), dropna_replicate_None. }
  split; [exact Hin|].
  eexists. split; [exact Hin|]. cbn.
  destruct df; [done|]. cbn. left.
Qed.

(** C9. [phase2_shap] trains on every row: the target vector handed to
    [fit] has one entry per run, in order, and a run whose target metric is
    missing enters with the score 0; no row is dropped from X or y. *)
Theorem phase2_fit_keeps_rows_with_missing_target
    (df : DataFrame) (feature_cols : list string) (target : string) :
  (2 ≤ length df)%nat →
  encode_features df feature_cols ≠ [] →
  ∃ X y,
    phase2_fit_inputs df feature_cols target = Some (X, y)
    ∧ X = encode_features df feature_cols
    ∧ length y = length df
    ∧ (∀ column, column ∈ X → length column.2 = length df)
    ∧ (∀ i r, df !! i = Some r →
         y !! i = Some (match metric target r with
                        | Some score => score
                        | None => 0%Q
                        end)).
Proof.
  intros Hlen Hcols.
  exists (encode_features df feature_cols), (fillna0 (metric target <$> df)).
  repeat split.
  - unfold phase2_fit_inputs, table_empty.
    destruct (encode_features df feature_cols) eqn:HX; [done|].
    destruct df as [|r0 [|r1 df]]; cbn in *; [lia|lia|done].
  - unfold fillna0. by rewrite !length_fmap.
  - intros column Hin. by apply encode_features_column_length in Hin.
  - intros i r Hi. unfold fillna0.
    rewrite !list_lookup_fmap, Hi. cbn. by destruct (metric target r).
Qed.

(** ** Phase 4: the OLS step *)
















(** ** Facts about [py_sorted] *)

Section sorting_facts.
Context {A : Type} (le : A → A → bool).

Lemma insert_by_perm x l : insert_by le x l ≡ₚ x :: l.
Proof.
  induction l as [|y l IH]; cbn; [done|].
  destruct (le x y); [done|]. rewrite IH. apply perm_swap.
Qed.

Lemma py_sorted_perm l : py_sorted le l ≡ₚ l.
Proof.
  induction l as [|x l IH]; cbn; [done|].
  rewrite insert_by_perm. by f_equiv.
Qed.

Hypothesis le_total : ∀ a b, le a b = true ∨ le b a = true.
Hypothesis le_trans : ∀ a b c, le a b = true → le b c = true → le a c = true.

Lemma insert_by_sorted x l :
  StronglySorted (λ a b, le a b = true) l →
  StronglySorted (λ a b, le a b = true) (insert_by le x l).
Proof.
  induction l as [|y l IH]; cbn; intros Hs.
  - by repeat constructor.
  - destruct (le x y) eqn:Hxy.
    + constructor; [done|]. constructor; [done|].
      apply StronglySorted_cons in Hs as [Hy _].
      eapply Forall_impl; [exact Hy|]. cbn. eauto.
    + apply StronglySorted_cons in Hs as [Hy Hs].
      constructor; [by apply IH|].
      rewrite insert_by_perm. constructor; [|done].
      destruct (le_total x y); congruence.
Qed.

Lemma py_sorted_sorted l :
  StronglySorted (λ a b, le a b = true) (py_sorted le l).
Proof.
  induction l as [|x l IH]; cbn; [constructor|by apply insert_by_sorted].
Qed.

(** The first element of the sorted list comes no later than any other. *)
Lemma py_sorted_head h rest l :
  py_sorted le l = h :: rest → ∀ x, x ∈ l → x = h ∨ le h x = true.
Proof.
  intros Hsort x Hx.
  pose proof (py_sorted_sorted l) as Hs. rewrite Hsort in Hs.
  apply StronglySorted_cons in Hs as [Hall _].
  rewrite <- (py_sorted_perm l), Hsort in Hx.
  apply elem_of_cons in Hx as [->|Hx]; [by left|right].
  by eapply Forall_forall in Hall.
Qed.
End sorting_facts.

Lemma StronglySorted_reverse {A} (R : relation A) l :
  StronglySorted R l → StronglySorted (flip R) (reverse l).
Proof.
  induction 1 as [|x l Hs IH Hall]; [constructor|].
  rewrite reverse_cons. apply StronglySorted_app. split_and!.
  - intros a b Ha Hb. apply list_elem_of_singleton in Hb as ->.
    rewrite elem_of_reverse in Ha. rewrite Forall_forall in Hall.
    by apply Hall.
  - done.
  - repeat constructor.
Qed.

Lemma StronglySorted_lookup {A} (R : relation A) l i j a b :
  StronglySorted R l → (i < j)%nat → l !! i = Some a → l !! j = Some b → R a b.
Proof.
  intros Hs. revert i j. induction Hs as [|x l Hs IH Hall]; intros i j Hij Hi Hj.
  - done.
  - destruct j as [|j]; [lia|]. cbn in Hj. destruct i as [|i]; cbn in Hi.
    + injection Hi as ->. rewrite Forall_forall in Hall.
      apply Hall. by eapply list_elem_of_lookup_2.
    + eapply (IH i j); [lia|done..].
Qed.

Lemma Qle_bool_total a b : Qle_bool a b = true ∨ Qle_bool b a = true.
Proof.
  rewrite !Qle_bool_iff. destruct (Qlt_le_dec a b) as [H|H]; [left|by right].
  by apply Qlt_le_weak.
Qed.

Lemma Qle_bool_trans a b c :
  Qle_bool a b = true → Qle_bool b c = true → Qle_bool a c = true.
Proof. rewrite !Qle_bool_iff. apply Qle_trans. Qed.

(** ** Phase 2: the importance ranking *)

(** C7 (as the code has it). The ranking holds every feature once with its
    mean absolute contribution and runs from the largest to the smallest;
    the order among equal contributions is whatever the sort leaves, with
    no comparison of feature names. *)
Theorem importance_ranking_descending
    (X : FeatureTable) (shap_values : list (list Q)) :
  importance_ranking X shap_values ≡ₚ zip X.*1 (mean_abs (length X) shap_values)
  ∧ ∀ i j a b, (i < j)%nat →
      importance_ranking X shap_values !! i = Some a →
      importance_ranking X shap_values !! j = Some b →
      (b.2 <= a.2)%Q.
Proof.
  unfold importance_ranking, imp_df. split.
  - by rewrite reverse_Permutation, py_sorted_perm.
  - intros i j a b Hij Ha Hb. apply Qle_bool_iff.
    eapply (StronglySorted_lookup
              (flip (λ u v : string * Q, Qle_bool u.2 v.2 = true)));
      [|exact Hij|exact Ha|exact Hb].
    apply StronglySorted_reverse, py_sorted_sorted.
    + intros u v. apply Qle_bool_total.
    + intros u v w. apply Qle_bool_trans.
Qed.

(** ** Phase 4: the run-count guard *)

Lemma length_set_column (df : DataFrame) c s :
  length s = length df → length (set_column df c s) = length df.
Proof. intros Hs. unfold set_column. rewrite length_zip_with. lia. Qed.

Lemma length_df_dw (df : DataFrame) feature_cols target :
  length (df_dw df feature_cols target) = length (valid_runs df target).
Proof. unfold df_dw. by rewrite length_fmap. Qed.

Lemma length_ordinal s codes : ordinal s = Some codes → length codes = length s.
Proof.
  unfold ordinal. case_match; intros Hc; simplify_eq. by rewrite length_fmap.
Qed.

Lemma prepare_keeps_valid_runs (df : DataFrame) feature_cols target tc pos t d :
  prepare df feature_cols target tc pos = Estimating t d →
  length d = length (valid_runs df target).
Proof.
  unfold prepare. intros Hp. rewrite <- (length_df_dw df feature_cols target).
  repeat case_match; simplify_eq; try done; apply length_set_column.
  - unfold bucket_numeric. by rewrite length_fmap, length_col.
  - unfold one_vs_rest. by rewrite length_fmap, length_col.
  - erewrite length_ordinal by done. by rewrite length_col.
Qed.






(** ** Phase 3: the recommender *)

Lemma elem_of_existing_keys (df : DataFrame) feature_cols key :
  key ∈ existing_keys df feature_cols ↔ ∃ r, r ∈ df ∧ key = row_key feature_cols r.
Proof.
  unfold existing_keys. rewrite elem_of_list_to_set, list_elem_of_fmap.
  split; intros (r & ? & ?); by exists r.
Qed.

Lemma sample_candidates_unseen space feature_cols n existing p :
  p ∈ sample_candidates space feature_cols n existing →
  config_key feature_cols p ∉ existing.
Proof.
  unfold sample_candidates. intros Hp.
  apply list_elem_of_In, filter_In in Hp as [_ Hp].
  by apply bool_decide_eq_true in Hp.
Qed.

Lemma mapM_elem_of {A B} (f : A → option B) l k y :
  mapM f l = Some k → y ∈ k → ∃ x, x ∈ l ∧ f x = Some y.
Proof.
  intros Hm%mapM_Some_1. induction Hm as [|x z l k Hxz _ IH]; intros Hy.
  - by apply elem_of_nil in Hy.
  - apply elem_of_cons in Hy as [->|Hy].
    + exists x. split; [left|done].
    + destruct (IH Hy) as (x' & Hx' & Hf). exists x'. split; [by right|done].
Qed.

Lemma score_candidate_keeps_config X_train feature_cols cand c s :
  score_candidate X_train feature_cols cand = Some (c, s) → c = cand.
Proof.
  unfold score_candidate. intros H.
  destruct (mapM _ X_train); cbn in H; by simplify_eq.
Qed.

Lemma dedupe_subset feature_cols seen scored x :
  x ∈ dedupe feature_cols seen scored → x ∈ scored.
Proof.
  revert seen. induction scored as [|[cand score] rest IH]; intros seen; cbn.
  - done.
  - case_decide.
    + intros Hx. right. by eapply IH.
    + intros [->|Hx]%elem_of_cons; [left|right; by eapply IH].
Qed.

(** What the deduplication adds: no two kept entries share a key. *)
Lemma dedupe_fresh feature_cols seen scored x :
  x ∈ dedupe feature_cols seen scored → config_key feature_cols x.1 ∉ seen.
Proof.
  revert seen. induction scored as [|[cand score] rest IH]; intros seen; cbn.
  - by intros ?%elem_of_nil.
  - case_decide as Hseen.
    + apply IH.
    + intros [->|Hx]%elem_of_cons; [done|].
      apply IH in Hx. clear -Hx. set_solver.
Qed.

Lemma fallback_loop_unseen feature_cols existing n trials result x :
  (∀ y, y ∈ result → config_key feature_cols y.1 ∉ existing) →
  x ∈ fallback_loop feature_cols existing n trials result →
  config_key feature_cols x.1 ∉ existing.
Proof.
  revert result. induction trials as [|t rest IH]; intros result Hres; cbn.
  - apply Hres.
  - destruct (value t) as [v|]; [|by apply IH].
    set (result' := if decide (config_key feature_cols (params t) ∈ existing)
                    then result else result ++ [(params t, v)]).
    assert (∀ y, y ∈ result' → config_key feature_cols y.1 ∉ existing) as Hres'.
    { subst result'. case_decide as Hkey; [done|].
      intros y [Hy| ->%list_elem_of_singleton]%elem_of_app; [by apply Hres|done]. }
    destruct (n <=? Z.of_nat (length result'))%Z; [apply Hres'|by apply IH].
Qed.

(** What the key filter of [_suggest_next] achieves: whatever the sampler
    draws and the surrogate predicts, a returned configuration, on the scored
    path as on the fallback path, has a printed key that differs from the
    printed key of every historical run; the fallback path always returns.
    The keys are strings: the integer 4 prints as 4 and the float 4.0 as
    4.0, so this says nothing about configurations that are equal as
    values. *)
Theorem suggest_next_printed_keys_differ
    (study_trials : list trial) (space : gmap string param_spec)
    (surrogate : option FeatureTable) (feature_cols : list string) (n : Z)
    (df_existing : DataFrame) :
  (∀ suggestions cand score,
     _suggest_next study_trials space surrogate feature_cols n df_existing
     = Some suggestions →
     (cand, score) ∈ suggestions →
     ∀ r, r ∈ df_existing →
          config_key feature_cols cand ≠ row_key feature_cols r)
  ∧ is_Some (_suggest_next study_trials space None feature_cols n df_existing).
Proof.
  split.
  - intros suggestions cand score Hret Hin r Hr Hkey.
    assert (config_key feature_cols cand
              ∉ existing_keys df_existing feature_cols) as Hunseen; last first.
    { apply Hunseen, elem_of_existing_keys. eauto. }
    unfold _suggest_next in Hret.
    destruct (sample_candidates _ _ _ _) as [|p ps] eqn:Hcands.
    { simplify_eq. by apply elem_of_nil in Hin. }
    destruct surrogate as [X_train|].
    + destruct (mapM (score_candidate X_train feature_cols) (p :: ps))
        as [scored|] eqn:Hscored; cbn in Hret; [|done].
      simplify_eq.
      apply elem_of_take in Hin as (i & Hin%list_elem_of_lookup_2 & _).
      apply dedupe_subset in Hin. rewrite py_sorted_perm in Hin.
      destruct (mapM_elem_of _ _ _ _ Hscored Hin) as (c & Hc & Hsc).
      apply score_candidate_keeps_config in Hsc as ->.
      rewrite <- Hcands in Hc. by apply sample_candidates_unseen in Hc.
    + simplify_eq.
      eapply (fallback_loop_unseen _ _ _ _ [] (cand, score)); [|exact Hin].
      by intros y ?%elem_of_nil.
  - unfold _suggest_next. by destruct (sample_candidates _ _ _ _).
Qed.

(** ** Phase 3: the inferred parameter space *)

Lemma infer_param_space_fold (df : DataFrame) feature_cols c
    (acc : gmap string param_spec) :
  foldl (λ space c,
           match infer_spec (col df c) with
           | Some spec => <[c := spec]> space
           | None => space
           end) acc feature_cols !! c
  = match (if decide (c ∈ feature_cols) then infer_spec (col df c) else None) with
    | Some spec => Some spec
    | None => acc !! c
    end.
Proof.
  revert acc. induction feature_cols as [|x l IH]; intros acc; cbn [foldl].
  - by case_decide as Hin; [apply elem_of_nil in Hin|].
  - rewrite IH. destruct (decide (c = x)) as [->|Hne].
    + rewrite (decide_True (P := x ∈ x :: l)) by left.
      case_decide; destruct (infer_spec (col df x));
        by rewrite ?lookup_insert_eq.
    + assert (∀ spec : gmap string param_spec,
                match infer_spec (col df x) with
                | Some s => <[x := s]> spec
                | None => spec
                end !! c = spec !! c) as Hother.
      { intros spec. destruct (infer_spec (col df x)); [|done].
        by rewrite lookup_insert_ne. }
      rewrite Hother.
      destruct (decide (c ∈ l)) as [Hin|Hnin].
      * by rewrite (decide_True (P := c ∈ x :: l)) by (by right).
      * rewrite (decide_False (P := c ∈ x :: l)); [done|].
        by intros [?|?]%elem_of_cons.
Qed.

Lemma infer_param_space_lookup (df : DataFrame) feature_cols c :
  c ∈ feature_cols →
  _infer_param_space df feature_cols !! c = infer_spec (col df c).
Proof.
  intros Hc. unfold _infer_param_space. rewrite infer_param_space_fold.
  rewrite decide_True by done. by destruct (infer_spec (col df c)).
Qed.

Lemma is_whole_iff q : is_whole q = true ↔ ∃ z : Z, (q == inject_Z z)%Q.
Proof.
  unfold is_whole. rewrite Qeq_bool_iff. split; [by eexists|].
  intros [z Hz]. rewrite Hz at 2. by rewrite Qfloor_Z.
Qed.

Lemma forallb_is_whole xs :
  forallb is_whole xs = true ↔ Forall (λ q, ∃ z : Z, (q == inject_Z z)%Q) xs.
Proof.
  rewrite forallb_forall, Forall_forall.
  split; intros H q Hq; apply is_whole_iff, H; by apply list_elem_of_In.
Qed.

Lemma Qlt_bool_iff x y : Qlt_bool x y = true ↔ (x < y)%Q.
Proof.
  unfold Qlt_bool. rewrite negb_true_iff, <- not_true_iff_false, Qle_bool_iff.
  split; [apply Qnot_le_lt|apply Qlt_not_le].
Qed.

(** C5. For a parameter with at least one observed value the inferred
    domain is: the sorted printed distinct values as categorical choices
    when the column is not numeric or has at most 5 distinct values;
    otherwise the integer range from minimum to maximum when all values are
    whole and at most 30 are distinct; otherwise the real range; and a range
    whose ends meet is replaced by the single choice of its low end, so no
    range with low = high is ever produced. *)
Theorem infer_param_space_domain
    (df : DataFrame) (feature_cols : list string) (c : string) :
  c ∈ feature_cols →
  dropna (col df c) ≠ [] →
  let s := col df c in
  let xs := omap num_of (dropna s) in
  let whole := Forall (λ q, ∃ z : Z, (q == inject_Z z)%Q) xs in
  let space := _infer_param_space df feature_cols in
  (is_numeric_dtype s = false ∨ (nunique s ≤ 5)%nat →
     space !! c
     = Some (Categorical (py_sorted String.leb (py_str <$> unique (dropna s)))))
  ∧ (is_numeric_dtype s = true → (5 < nunique s)%nat →
     whole ∧ (nunique s ≤ 30)%nat →
     space !! c
     = Some (let lo := py_int (Qminimum xs) in
             let hi := py_int (Qmaximum xs) in
             if (lo <? hi)%Z then IntRange lo hi
             else Categorical [py_str (PInt lo)]))
  ∧ (is_numeric_dtype s = true → (5 < nunique s)%nat →
     ¬ (whole ∧ (nunique s ≤ 30)%nat) →
     space !! c
     = Some (let lo := Qminimum xs in
             let hi := Qmaximum xs in
             if Qlt_bool lo hi then FloatRange lo hi
             else Categorical [py_str (PFloat lo)]))
  ∧ (∀ lo hi, space !! c = Some (IntRange lo hi) → (lo < hi)%Z)
  ∧ (∀ lo hi, space !! c = Some (FloatRange lo hi) → (lo < hi)%Q).
Proof.
  intros Hc Hne s xs whole space. subst space.
  rewrite (infer_param_space_lookup df feature_cols c Hc).
  fold s. unfold infer_spec. fold xs.
  destruct (dropna s) as [|v0 vs] eqn:Hseries; [done|]. cbn [length Nat.eqb].
  rewrite <- Hseries. clear Hne.
  assert (Hwhole : forallb is_whole xs = true ↔ whole)
    by apply forallb_is_whole.
  split_and!.
  - intros [Hobj|Hfew].
    + by rewrite Hobj.
    + apply Nat.leb_le in Hfew. rewrite Hfew. by rewrite orb_true_r.
  - intros Hnum Hmany [Hw Hle].
    rewrite Hnum. apply Nat.leb_gt in Hmany. rewrite Hmany. cbn [negb orb].
    apply Hwhole in Hw. apply Nat.leb_le in Hle. by rewrite Hw, Hle.
  - intros Hnum Hmany Hnot.
    rewrite Hnum. apply Nat.leb_gt in Hmany. rewrite Hmany. cbn [negb orb].
    destruct (forallb is_whole xs && (nunique s <=? 30)%nat) eqn:Hint; [|done].
    apply andb_true_iff in Hint as [Hw Hle]. exfalso. apply Hnot.
    split; [by apply Hwhole|by apply Nat.leb_le].
  - intros lo hi. repeat case_match; intros Heq; simplify_eq.
    by apply Z.ltb_lt.
  - intros lo hi. repeat case_match; intros Heq; simplify_eq.
    by apply Qlt_bool_iff.
Qed.

(** ** Phase 4: the treatment selection *)

Lemma best_category_flat (df : DataFrame) target feats :
  best_category df target feats
  = foldl (λ best fv, consider df target fv.1 best fv.2)
          (None, None, (-999)%Q) (category_pairs df feats).
Proof.
  unfold best_category, category_pairs.
  generalize (@None string, @None pyval, (-999)%Q).
  induction feats as [|f feats IH]; intros best; [done|].
  cbn [foldl]. rewrite bind_cons, foldl_app, foldl_fmap. apply IH.
Qed.

Lemma elem_of_category_pairs (df : DataFrame) feats f v :
  (f, v) ∈ category_pairs df feats ↔ f ∈ feats ∧ v ∈ unique (dropna (col df f)).
Proof.
  unfold category_pairs. rewrite list_elem_of_bind. split.
  - intros (f' & Hin & Hf'). apply list_elem_of_fmap in Hin as (v' & Heq & Hv').
    by simplify_eq.
  - intros [Hf Hv]. exists f. split; [|done].
    apply list_elem_of_fmap. by exists v.
Qed.

Lemma best_inv_step (df : DataFrame) target seen best f v :
  best_inv df target seen best →
  best_inv df target (seen ++ [(f, v)]) (consider df target f best v).
Proof.
  intros [Hmax Hbest]. unfold consider.
  assert (Hlow : (-999 <= best.2)%Q).
  { destruct Hbest as [->|(?&?&_&_&_&Hlt)]; [apply Qle_refl|by apply Qlt_le_weak]. }
  destruct (delta df target f v) as [d|] eqn:Hd.
  - destruct (Qlt_bool best.2 d) eqn:Hlt.
    + apply Qlt_bool_iff in Hlt. split.
      * intros f' v' d' [Hin|Hin%list_elem_of_singleton]%elem_of_app Hd'; cbn.
        -- apply Qlt_le_weak. eapply Qle_lt_trans; [by eapply Hmax|done].
        -- simplify_eq. apply Qle_refl.
      * right. exists f, v. cbn. split_and!; [done| |done|].
        -- apply elem_of_app. right. by apply list_elem_of_singleton.
        -- by eapply Qle_lt_trans.
    + assert (d <= best.2)%Q as Hle.
      { apply Qnot_lt_le. intros Hc%Qlt_bool_iff. congruence. }
      split.
      * intros f' v' d' [Hin|Hin%list_elem_of_singleton]%elem_of_app Hd'.
        -- by eapply Hmax.
        -- by simplify_eq.
      * destruct Hbest as [->|(f0 & v0 & ? & ? & ? & ?)]; [by left|right].
        exists f0, v0. split_and!; [done| |done..].
        apply elem_of_app. by left.
  - split.
    + intros f' v' d' [Hin|Hin%list_elem_of_singleton]%elem_of_app Hd'.
      * by eapply Hmax.
      * simplify_eq.
    + destruct Hbest as [->|(f0 & v0 & ? & ? & ? & ?)]; [by left|right].
      exists f0, v0. split_and!; [done| |done..].
      apply elem_of_app. by left.
Qed.

Lemma best_inv_fold (df : DataFrame) target pairs seen best :
  best_inv df target seen best →
  best_inv df target (seen ++ pairs)
           (foldl (λ best fv, consider df target fv.1 best fv.2) best pairs).
Proof.
  revert seen best. induction pairs as [|[f v] pairs IH]; intros seen best Hinv.
  - by rewrite app_nil_r.
  - cbn [foldl]. rewrite (assoc_L (++) seen [(f, v)] pairs : seen ++ (f, v) :: pairs = _).
    apply IH. by apply best_inv_step.
Qed.

Lemma best_category_inv (df : DataFrame) target feats :
  best_inv df target (category_pairs df feats) (best_category df target feats).
Proof.
  rewrite best_category_flat.
  apply (best_inv_fold df target (category_pairs df feats) []).
  split; [by intros ??? ?%elem_of_nil|by left].
Qed.

Lemma elem_of_List_filter {A} (p : A → bool) l x :
  x ∈ List.filter p l ↔ x ∈ l ∧ p x = true.
Proof. by rewrite !list_elem_of_In, filter_In. Qed.

Lemma col_lookup (df : DataFrame) c i r :
  df !! i = Some r → col df c !! i = Some (r !! c).
Proof. intros Hi. unfold col. by rewrite list_lookup_fmap, Hi. Qed.

Lemma set_column_cell (df : DataFrame) c s i r cell :
  df !! i = Some r → s !! i = Some cell →
  ∃ r', set_column df c s !! i = Some r' ∧ r' !! c = cell.
Proof.
  intros Hr Hs. unfold set_column. rewrite lookup_zip_with, Hr. cbn. rewrite Hs. cbn.
  eexists. split; [done|].
  destruct cell; [apply lookup_insert_eq|apply lookup_delete_eq].
Qed.

Lemma num_varying_head (df : DataFrame) feature_cols c rest :
  num_varying df feature_cols = c :: rest →
  c ∈ feature_cols
  ∧ is_numeric_dtype (col df c) = true
  ∧ (1 < nunique (col df c))%nat
  ∧ ∀ c', c' ∈ feature_cols → is_numeric_dtype (col df c') = true →
          (1 < nunique (col df c'))%nat → (std_key df c' <= std_key df c)%Q.
Proof.
  unfold num_varying. intros Hsort.
  set (cands := List.filter _ feature_cols) in Hsort.
  assert (c ∈ cands) as Hc.
  { rewrite <- (py_sorted_perm (λ a b, Qle_bool (std_key df b) (std_key df a)) cands),
      Hsort. left. }
  apply elem_of_List_filter in Hc as [Hc [Hnum Hvar]%andb_true_iff].
  split_and!; [done|done|by apply Nat.ltb_lt|].
  intros c' Hc' Hnum' Hvar'.
  assert (c' ∈ cands) as Hin.
  { apply elem_of_List_filter. split; [done|].
    apply andb_true_iff. split; [done|by apply Nat.ltb_lt]. }
  eapply py_sorted_head in Hin as [->|Hle]; [apply Qle_refl| |
    |
    |exact Hsort].
  - by apply Qle_bool_iff in Hle.
  - intros a b. apply Qle_bool_total.
  - intros a b d. cbn. intros ??. by eapply Qle_bool_trans.
Qed.

Lemma prepare_one_vs_rest (df : DataFrame) feature_cols target f v :
  f ∈ feature_cols → is_numeric_dtype (col df f) = false →
  ∃ d, prepare df feature_cols target f (Some v) = Estimating f d
       ∧ ∀ i r, df_dw df feature_cols target !! i = Some r →
           ∃ r', d !! i = Some r'
                 ∧ r' !! f = Some (PInt (match r !! f with
                                         | Some w => if py_eqb w v then 1 else 0
                                         | None => 0
                                         end)).
Proof.
  intros Hf Hobj. unfold prepare. rewrite Hobj.
  rewrite bool_decide_eq_false_2 by (intros Hn; apply Hn, elem_of_app; by left).
  eexists. split; [done|]. intros i r Hi.
  eapply set_column_cell; [done|].
  unfold one_vs_rest. by rewrite list_lookup_fmap, (col_lookup _ _ _ _ Hi).
Qed.

Lemma prepare_numeric (df : DataFrame) feature_cols target c :
  c ∈ feature_cols → is_numeric_dtype (col df c) = true →
  let dw := df_dw df feature_cols target in
  let m := median (values (floats (col dw c))) in
  (¬ (2 < nunique (col dw c))%nat →
     prepare df feature_cols target c None = Estimating c dw)
  ∧ ((2 < nunique (col dw c))%nat →
     ∃ d, prepare df feature_cols target c None = Estimating c d
          ∧ ∀ i r, dw !! i = Some r →
              ∃ r', d !! i = Some r'
                    ∧ r' !! c = Some (PInt (match r !! c ≫= num_of, m with
                                            | Some x, Some md =>
                                                if Qlt_bool md x then 1 else 0
                                            | _, _ => 0
                                            end))).
Proof.
  intros Hc Hnum dw m. unfold prepare. rewrite Hnum. fold dw.
  rewrite bool_decide_eq_false_2 by (intros Hn; apply Hn, elem_of_app; by left).
  split.
  - intros Hfew. apply Nat.ltb_nlt in Hfew. by rewrite Hfew.
  - intros Hmany. apply Nat.ltb_lt in Hmany. rewrite Hmany.
    eexists. split; [done|]. intros i r Hi.
    eapply set_column_cell; [done|].
    unfold bucket_numeric. by rewrite list_lookup_fmap, (col_lookup _ _ _ _ Hi).
Qed.

(** C4 (as the code has it). Without a supplied treatment the selection
    runs in three steps.  (1) The first feature, in feature order, with
    exactly two distinct values is taken.  (2) Otherwise, among the
    categories of the non-numeric features that occur in at least two runs
    with a target, the one whose mean target lies highest above the overall
    mean is taken (when there is one), and the treatment is 1 for that
    category and 0 for every other cell.  (3) Otherwise the numeric feature
    of highest variance is taken, and when more than two distinct values
    remain among the runs with a target it is cut at their median, 1 being
    strictly above. *)
Theorem auto_treatment_policy
    (df : DataFrame) (feature_cols : list string) (target : string) :
  (∀ c rest, binary_feats df feature_cols = c :: rest →
     auto_treatment df feature_cols target = Some (c, None)
     ∧ c ∈ feature_cols ∧ nunique (col df c) = 2%nat)
  ∧ (binary_feats df feature_cols = [] → "" ∉ feature_cols →
     ∀ f v d, eligible df feature_cols target f v d →
     ∃ f' v' d',
       auto_treatment df feature_cols target = Some (f', Some v')
       ∧ eligible df feature_cols target f' v' d'
       ∧ (∀ f0 v0 d0, eligible df feature_cols target f0 v0 d0 → (d0 <= d')%Q)
       ∧ ∃ dw',
           prepare df feature_cols target f' (Some v') = Estimating f' dw'
           ∧ ∀ i r, df_dw df feature_cols target !! i = Some r →
               ∃ r', dw' !! i = Some r'
                     ∧ r' !! f' = Some (PInt (match r !! f' with
                                              | Some w => if py_eqb w v' then 1 else 0
                                              | None => 0
                                              end)))
  ∧ (binary_feats df feature_cols = [] →
     (∀ f v d, ¬ eligible df feature_cols target f v d) →
     auto_treatment df feature_cols target
     = match num_varying df feature_cols with
       | [] => None
       | c :: _ => Some (c, None)
       end
     ∧ ∀ c rest, num_varying df feature_cols = c :: rest →
         (∀ c', c' ∈ feature_cols → is_numeric_dtype (col df c') = true →
                (1 < nunique (col df c'))%nat →
                (std_key df c' <= std_key df c)%Q)
         ∧ let dw := df_dw df feature_cols target in
           let m := median (values (floats (col dw c))) in
           (2 < nunique (col dw c))%nat →
           ∃ dw',
             prepare df feature_cols target c None = Estimating c dw'
             ∧ ∀ i r, dw !! i = Some r →
                 ∃ r', dw' !! i = Some r'
                       ∧ r' !! c = Some (PInt (match r !! c ≫= num_of, m with
                                               | Some x, Some md =>
                                                   if Qlt_bool md x then 1 else 0
                                               | _, _ => 0
                                               end))).
Proof.
  split_and!.
  - intros c rest Hbin. unfold auto_treatment. rewrite Hbin. split; [done|].
    assert (c ∈ binary_feats df feature_cols) as Hc by (rewrite Hbin; left).
    apply elem_of_List_filter in Hc as [Hc Htwo]. split; [done|].
    by apply Nat.eqb_eq.
  - intros Hbin Hnames f v d (Hf & Hv & Hd & Hd999).
    pose proof (best_category_inv df target (cat_feats df feature_cols))
      as [Hmax Hbest].
    assert ((f, v) ∈ category_pairs df (cat_feats df feature_cols)) as Hpair
      by by apply elem_of_category_pairs.
    pose proof (Hmax f v d Hpair Hd) as Hle.
    destruct Hbest as [Hnone|(f' & v' & Hsel & Hin & Hd' & Hlow)].
    { rewrite Hnone in Hle. cbn in Hle. exfalso.
      eapply Qlt_irrefl, Qlt_le_trans; [exact Hd999|exact Hle]. }
    apply elem_of_category_pairs in Hin as [Hf' Hv'].
    pose proof Hf' as [Hfc [Hobj _]%andb_true_iff]%elem_of_List_filter.
    apply negb_true_iff in Hobj.
    exists f', v', (best_category df target (cat_feats df feature_cols)).2.
    split_and!.
    + unfold auto_treatment. rewrite Hbin.
      destruct (cat_feats df feature_cols) as [|c0 cs] eqn:Hcats;
        [by apply elem_of_nil in Hf|].
      destruct (best_category df target (c0 :: cs)) as [[bf bv] bd].
      cbn in Hsel. simplify_eq. unfold truthy.
      destruct (String.eqb_spec f' "") as [->|_]; [done|]. done.
    + done.
    + intros f0 v0 d0 (Hf0 & Hv0 & Hd0 & _). eapply Hmax; [|done].
      by apply elem_of_category_pairs.
    + by apply prepare_one_vs_rest.
  - intros Hbin Hnone. split.
    + unfold auto_treatment. rewrite Hbin.
      destruct (cat_feats df feature_cols) as [|c0 cs] eqn:Hcats; [done|].
      pose proof (best_category_inv df target (cat_feats df feature_cols))
        as [_ Hbest].
      rewrite Hcats in Hbest.
      destruct Hbest as [->|(f' & v' & _ & Hin & Hd' & Hlow)]; [done|].
      rewrite <- Hcats in Hin.
      apply elem_of_category_pairs in Hin as [Hf' Hv'].
      exfalso. by eapply Hnone.
    + intros c rest Hsort.
      apply num_varying_head in Hsort as (Hc & Hnum & _ & Hmaxvar).
      split; [done|]. intros dw m Hmany.
      by apply (prepare_numeric df feature_cols target c Hc Hnum).
Qed.

(** ** Further properties *)

(** *** The surrogate that is built *)

(** X1. Whatever the sample count (zero and negative counts included),
    [_build_surrogate] asks for between 50 and 300 estimators and a depth
    between 2 and 5, at most 4 for XGBoost; up to 3 samples give the smallest
    model (50 estimators, depth 2), 20 samples or more the full 300
    estimators; XGBoost is built only when it was asked for and is installed. *)
Theorem build_surrogate_bounds
    (xgboost_installed : bool) (model_type : string) (n_samples : Z) :
  let m := _build_surrogate xgboost_installed model_type n_samples in
  (50 ≤ n_estimators_of m ≤ 300)%Z
  ∧ (2 ≤ max_depth_of m ≤ 5)%Z
  ∧ ((n_samples ≤ 3)%Z → n_estimators_of m = 50%Z ∧ max_depth_of m = 2%Z)
  ∧ ((20 ≤ n_samples)%Z → n_estimators_of m = 300%Z)
  ∧ match m with
    | XGBRegressor _ d =>
        (d ≤ 4)%Z ∧ model_type = "xgb" ∧ xgboost_installed = true
    | RandomForestRegressor _ _ =>
        model_type ≠ "xgb" ∨ xgboost_installed = false
    end.
Proof.
  unfold _build_surrogate.
  destruct (String.eqb_spec model_type "xgb") as [->|Hne];
    destruct xgboost_installed; cbn; split_and!; try lia; auto.
Qed.

(** *** Importances, bars and the top four *)

Lemma Qsum_nonneg l : Forall (λ x, 0 <= x)%Q l → (0 <= Qsum l)%Q.
Proof.
  induction 1 as [|x l Hx _ IH]; cbn; [apply Qle_refl|].
  replace 0%Q with (0 + 0)%Q by reflexivity. by apply Qplus_le_compat.
Qed.

Lemma mean_abs_nonneg n shap_values x :
  x ∈ mean_abs n shap_values → (0 <= x)%Q.
Proof.
  unfold mean_abs. intros (j & -> & _)%list_elem_of_fmap.
  apply Qmult_le_0_compat.
  - apply Qsum_nonneg, Forall_fmap, Forall_forall. intros row _. cbn.
    apply Qabs_nonneg.
  - apply Qinv_le_0_compat. change 0%Q with (inject_Z 0).
    rewrite <- Zle_Qle. lia.
Qed.

Lemma foldl_max_spec l a :
  let m := foldl (λ a b, if Qlt_bool a b then b else a) a l in
  (a <= m)%Q ∧ (∀ x, x ∈ l → (x <= m)%Q) ∧ (m = a ∨ m ∈ l).
Proof.
  revert a. induction l as [|y l IH]; intros a; cbn.
  - split_and!; [apply Qle_refl|by intros x ?%elem_of_nil|by left].
  - destruct (IH (if Qlt_bool a y then y else a)) as (Hge & Hall & Hin).
    destruct (Qlt_bool a y) eqn:Hlt.
    + apply Qlt_bool_iff in Hlt. split_and!.
      * eapply Qle_trans; [by apply Qlt_le_weak|done].
      * intros x [->|Hx]%elem_of_cons; [done|by apply Hall].
      * right. destruct Hin as [->|Hin]; [left|by right].
    + assert (y <= a)%Q as Hle.
      { apply Qnot_lt_le. intros Hc%Qlt_bool_iff. congruence. }
      split_and!; [done| |].
      * intros x [->|Hx]%elem_of_cons; [by eapply Qle_trans|by apply Hall].
      * destruct Hin as [->|Hin]; [by left|right; by right].
Qed.

Lemma foldl_min_spec l a :
  let m := foldl (λ a b, if Qlt_bool b a then b else a) a l in
  (m <= a)%Q ∧ (∀ x, x ∈ l → (m <= x)%Q) ∧ (m = a ∨ m ∈ l).
Proof.
  revert a. induction l as [|y l IH]; intros a; cbn.
  - split_and!; [apply Qle_refl|by intros x ?%elem_of_nil|by left].
  - destruct (IH (if Qlt_bool y a then y else a)) as (Hge & Hall & Hin).
    destruct (Qlt_bool y a) eqn:Hlt.
    + apply Qlt_bool_iff in Hlt. split_and!.
      * eapply Qle_trans; [done|by apply Qlt_le_weak].
      * intros x [->|Hx]%elem_of_cons; [done|by apply Hall].
      * right. destruct Hin as [->|Hin]; [left|by right].
    + assert (a <= y)%Q as Hle.
      { apply Qnot_lt_le. intros Hc%Qlt_bool_iff. congruence. }
      split_and!; [done| |].
      * intros x [->|Hx]%elem_of_cons; [by eapply Qle_trans|by apply Hall].
      * destruct Hin as [->|Hin]; [by left|right; by right].
Qed.

Lemma Qmaximum_ge l x : x ∈ l → (x <= Qmaximum l)%Q.
Proof.
  destruct l as [|a l]; [by intros ?%elem_of_nil|]. cbn.
  destruct (foldl_max_spec l a) as (Ha & Hall & _).
  intros [->|Hx]%elem_of_cons; [done|by apply Hall].
Qed.

Lemma Qmaximum_elem l : l ≠ [] → Qmaximum l ∈ l.
Proof.
  destruct l as [|a l]; [done|]. intros _. cbn.
  destruct (foldl_max_spec l a) as (_ & _ & [->|Hin]); [left|by right].
Qed.

Lemma Qminimum_le l x : x ∈ l → (Qminimum l <= x)%Q.
Proof.
  destruct l as [|a l]; [by intros ?%elem_of_nil|]. cbn.
  destruct (foldl_min_spec l a) as (Ha & Hall & _).
  intros [->|Hx]%elem_of_cons; [done|by apply Hall].
Qed.

Lemma Qminimum_elem l : l ≠ [] → Qminimum l ∈ l.
Proof.
  destruct l as [|a l]; [done|]. intros _. cbn.
  destruct (foldl_min_spec l a) as (_ & _ & [->|Hin]); [left|by right].
Qed.

Lemma py_int_bounds q k :
  (0 <= q)%Q → (q <= inject_Z k)%Q → (0 ≤ py_int q ≤ k)%Z.
Proof.
  destruct q as [n d]. unfold Qle, py_int. cbn. intros H0 Hk.
  rewrite Z.quot_div_nonneg by lia. split.
  - apply Z.div_pos; lia.
  - apply Z.div_le_upper_bound; lia.
Qed.

Lemma length_mean_abs n shap_values : length (mean_abs n shap_values) = n.
Proof. unfold mean_abs. by rewrite length_fmap, length_seq. Qed.

Lemma length_imp_df (X : FeatureTable) shap_values :
  length (imp_df X shap_values) = length X.
Proof.
  unfold imp_df. rewrite (Permutation_length (py_sorted_perm _ _)).
  rewrite length_zip, length_fmap, length_mean_abs. lia.
Qed.

Lemma imp_df_importances (X : FeatureTable) shap_values x :
  x ∈ imp_df X shap_values → x.2 ∈ mean_abs (length X) shap_values.
Proof.
  unfold imp_df. rewrite py_sorted_perm. destruct x as [f imp].
  intros Hx. by apply elem_of_zip_r in Hx.
Qed.

(** X2. Every importance in the ranking is non-negative, and the bar
    printed for a feature has between 0 and 25 blocks, also when every
    importance is 0 (the divisor is then 1). *)
Theorem importance_bars_bounded
    (X : FeatureTable) (shap_values : list (list Q)) (entry : string * Q) :
  entry ∈ importance_ranking X shap_values →
  (0 <= entry.2)%Q
  ∧ (0 ≤ bar_len (imp_df X shap_values).*2 entry.2 ≤ 25)%Z.
Proof.
  unfold importance_ranking. rewrite elem_of_reverse. intros Hin.
  set (imps := (imp_df X shap_values).*2).
  assert (∀ x, x ∈ imps → (0 <= x)%Q) as Hnonneg.
  { intros x (y & -> & Hy)%list_elem_of_fmap.
    eapply mean_abs_nonneg. by apply imp_df_importances. }
  assert (entry.2 ∈ imps) as Himp by (by apply list_elem_of_fmap_2).
  pose proof (Hnonneg _ Himp) as H0. split; [done|].
  pose proof (Qmaximum_ge imps _ Himp) as Hmax.
  unfold bar_len, max_imp. fold imps.
  apply py_int_bounds.
  - apply Qmult_le_0_compat; [|done].
    apply Qmult_le_0_compat; [done|]. apply Qinv_le_0_compat.
    destruct (Qeq_bool (Qmaximum imps) 0); [done|by eapply Qle_trans].
  - destruct (Qeq_bool (Qmaximum imps) 0) eqn:Hz.
    + apply Qeq_bool_iff in Hz. rewrite Hz in Hmax.
      assert (entry.2 == 0)%Q as -> by (by apply Qle_antisym). done.
    + assert (0 < Qmaximum imps)%Q as Hpos.
      { apply Qle_lteq in H0 as [Hlt|Heq].
        - by eapply Qlt_le_trans.
        - apply Qle_lteq in Hmax as [Hlt|Heq'].
          + rewrite <- Heq in Hlt. done.
          + apply Qeq_bool_neq in Hz. exfalso. apply Hz.
            by rewrite <- Heq', <- Heq. }
      change (inject_Z 25) with (1 * 25)%Q.
      apply Qmult_le_compat_r; [|done].
      by apply Qle_shift_div_r; [|rewrite Qmult_1_l].
Qed.

(** X3. The features handed to the dependence plots are the
    min(4, number of features) highest ranked ones, listed from the least to
    the most important of them; no feature left out has a larger importance
    than one that is taken. *)
Theorem top4_are_the_highest_ranked
    (X : FeatureTable) (shap_values : list (list Q)) :
  let k := Nat.min 4 (length X) in
  top4 X shap_values = reverse (take k (importance_ranking X shap_values)).*1
  ∧ length (top4 X shap_values) = k
  ∧ ∀ a b, a ∈ take k (importance_ranking X shap_values) →
           b ∈ drop k (importance_ranking X shap_values) →
           (b.2 <= a.2)%Q.
Proof.
  intros k. unfold top4, importance_ranking.
  rewrite length_imp_df. fold k. split_and!.
  - by rewrite take_reverse, fmap_reverse, reverse_involutive, length_imp_df.
  - rewrite length_fmap, length_drop, length_imp_df. lia.
  - intros a b Ha Hb. apply Qle_bool_iff.
    assert (StronglySorted (flip (λ u v : string * Q, Qle_bool u.2 v.2 = true))
              (reverse (imp_df X shap_values))) as Hs.
    { apply StronglySorted_reverse, py_sorted_sorted.
      - intros u v. apply Qle_bool_total.
      - intros u v w. apply Qle_bool_trans. }
    rewrite <- (take_drop k (reverse (imp_df X shap_values))) in Hs.
    by eapply (StronglySorted_app_1_elem_of _ _ _ a b) in Hs.
Qed.

(** *** The inferred space, continued *)

Lemma infer_spec_None (s : Series) : infer_spec s = None ↔ dropna s = [].
Proof.
  unfold infer_spec. destruct (dropna s) as [|v vs] eqn:Hs; [done|].
  cbn [length Nat.eqb]. split; [|done].
  by repeat case_match.
Qed.

Lemma infer_param_space_Some (df : DataFrame) feature_cols c spec :
  _infer_param_space df feature_cols !! c = Some spec ↔
  c ∈ feature_cols ∧ infer_spec (col df c) = Some spec.
Proof.
  unfold _infer_param_space. rewrite infer_param_space_fold, lookup_empty.
  case_decide as Hc.
  - destruct (infer_spec (col df c)) as [spec'|].
    + split; [by intros ?|by intros [_ ?]].
    + split; [done|by intros [_ ?]].
  - split; [done|by intros [? _]].
Qed.

(** X4. The inferred space has an entry for a name exactly when the name is
    one of the feature columns and the column holds at least one value: a
    parameter that was never observed gets no domain, and nothing outside the
    feature columns gets one. *)
Theorem infer_param_space_keys
    (df : DataFrame) (feature_cols : list string) (c : string) :
  is_Some (_infer_param_space df feature_cols !! c) ↔
  c ∈ feature_cols ∧ dropna (col df c) ≠ [].
Proof.
  split.
  - intros [spec Hspec]. apply infer_param_space_Some in Hspec as [Hc Hspec].
    split; [done|]. intros Hempty%infer_spec_None. congruence.
  - intros [Hc Hne].
    destruct (infer_spec (col df c)) as [spec|] eqn:Hspec.
    + exists spec. by apply infer_param_space_Some.
    + by apply infer_spec_None in Hspec.
Qed.

Lemma py_eqb_refl_str s : py_eqb (PStr s) (PStr s) = true.
Proof. cbn. apply String.eqb_refl. Qed.

Lemma sorted_choices_nonempty (l : list pyval) :
  l ≠ [] → py_sorted String.leb (py_str <$> unique l) ≠ [].
Proof.
  intros Hne Hnil. apply (f_equal length) in Hnil.
  rewrite (Permutation_length (py_sorted_perm _ _)), length_fmap in Hnil.
  by destruct l.
Qed.

(** A string value keeps its place in [unique]. *)
Lemma unique_elem_of_str l s :
  PStr s ∈ l → PStr s ∈ unique l.
Proof.
  induction l as [|x l IH]; [by intros ?%elem_of_nil|].
  intros [<-|Hin]%elem_of_cons; cbn; [left|].
  assert (x = PStr s ∨ py_eqb x (PStr s) = false) as [->|Hne].
  { destruct x as [z|q|t]; cbn; [by right..|].
    destruct (String.eqb_spec t s) as [->|_]; [by left|by right]. }
  - left.
  - right. apply elem_of_List_filter. split; [by apply IH|].
    by apply negb_true_iff.
Qed.

Lemma py_int_whole q : is_whole q = true → (inject_Z (py_int q) == q)%Q.
Proof.
  unfold is_whole. rewrite Qeq_bool_iff. intros Hq.
  assert (py_int q = Qfloor q) as ->; [|by symmetry].
  destruct q as [n d]. unfold Qeq in Hq. cbn in *.
  unfold py_int. cbn. rewrite Z.mul_1_r in Hq.
  rewrite Hq at 1. rewrite Z.quot_mul by lia. done.
Qed.

Lemma infer_spec_well_formed (s : Series) spec :
  infer_spec s = Some spec →
  match spec with
  | Categorical choices => choices ≠ []
  | IntRange lo hi => (lo < hi)%Z ∧ is_numeric_dtype s = true
  | FloatRange lo hi => (lo < hi)%Q ∧ is_numeric_dtype s = true
  end.
Proof.
  unfold infer_spec.
  destruct (dropna s) as [|v vs] eqn:Hs; [done|]. cbn [length Nat.eqb].
  rewrite <- Hs.
  destruct (is_numeric_dtype s) eqn:Hnum; cbn [negb orb].
  - repeat case_match; intros Heq; simplify_eq; try done.
    + apply sorted_choices_nonempty. by rewrite Hs.
    + split; [by apply Z.ltb_lt|done].
    + split; [by apply Qlt_bool_iff|done].
  - intros Heq. simplify_eq. apply sorted_choices_nonempty. by rewrite Hs.
Qed.

Lemma numeric_column_values (s : Series) v :
  is_numeric_dtype s = true → v ∈ dropna s →
  ∃ x, num_of v = Some x ∧ x ∈ omap num_of (dropna s).
Proof.
  unfold is_numeric_dtype. rewrite forallb_forall. intros Hnum Hv.
  pose proof (Hnum v (proj1 (list_elem_of_In _ _) Hv)) as Hn.
  unfold is_num in Hn. destruct (num_of v) as [x|] eqn:Hx; [|done].
  exists x. split; [done|]. apply list_elem_of_omap. by exists v.
Qed.

Lemma infer_spec_covers (s : Series) (spec : param_spec) (v : pyval) :
  infer_spec s = Some spec →
  v ∈ dropna s →
  match spec with
  | IntRange lo hi =>
      ∃ x, num_of v = Some x ∧ is_whole x = true
           ∧ (inject_Z lo <= x)%Q ∧ (x <= inject_Z hi)%Q
  | FloatRange lo hi =>
      ∃ x, num_of v = Some x ∧ (lo <= x)%Q ∧ (x <= hi)%Q
  | Categorical choices =>
      choices ≠ []
      ∧ ((∀ w, w ∈ dropna s → ∃ t, w = PStr t) → py_str v ∈ choices)
  end.
Proof.
  intros Hspec Hv.
  pose proof (infer_spec_well_formed _ _ Hspec) as Hwf.
  unfold infer_spec in Hspec.
  destruct (dropna s) as [|v0 vs] eqn:Hs; [done|]. cbn [length Nat.eqb] in Hspec.
  rewrite <- Hs in *.
  destruct (negb (is_numeric_dtype s) || (nunique s <=? 5)%nat) eqn:Hcat.
  { simplify_eq. split; [done|]. intros Hstr.
    destruct (Hstr v Hv) as [t ->]. cbn.
    rewrite py_sorted_perm. apply (list_elem_of_fmap_2 py_str _ (PStr t)).
    by apply unique_elem_of_str. }
  apply orb_false_iff in Hcat as [Hnum%negb_false_iff _].
  destruct (numeric_column_values s v Hnum Hv) as (x & Hx & Hxin).
  set (xs := omap num_of (dropna s)) in *.
  assert (xs ≠ []) as Hxs by (intros Hnil; rewrite Hnil in Hxin;
                              by apply elem_of_nil in Hxin).
  destruct (forallb is_whole xs && (nunique s <=? 30)%nat) eqn:Hint.
  - apply andb_true_iff in Hint as [Hwhole _].
    rewrite forallb_forall in Hwhole.
    assert (∀ y, y ∈ xs → is_whole y = true) as Hw'.
    { intros y Hy. apply Hwhole. by apply list_elem_of_In. }
    assert (∀ y, y ∈ xs → (inject_Z (py_int y) == y)%Q) as Hw.
    { intros y Hy. by apply py_int_whole, Hw'. }
    destruct (py_int (Qminimum xs) <? py_int (Qmaximum xs))%Z; simplify_eq.
    + exists x. split; [done|]. split; [by apply Hw'|]. split.
      * rewrite (Hw _ (Qminimum_elem xs Hxs)). by apply Qminimum_le.
      * rewrite (Hw _ (Qmaximum_elem xs Hxs)). by apply Qmaximum_ge.
    + split; [done|]. intros Hstr. destruct (Hstr v Hv) as [t ->]. done.
  - destruct (Qlt_bool (Qminimum xs) (Qmaximum xs)); simplify_eq.
    + exists x. split; [done|]. split; [by apply Qminimum_le|by apply Qmaximum_ge].
    + split; [done|]. intros Hstr. destruct (Hstr v Hv) as [t ->]. done.
Qed.

(** X5. Every observed value lies in the domain inferred for its
    parameter: inside the closed integer or real range, and, for a column of
    strings, among the categorical choices (which are never empty). *)
Theorem infer_param_space_covers_observed
    (df : DataFrame) (feature_cols : list string) (c : string)
    (spec : param_spec) (v : pyval) :
  _infer_param_space df feature_cols !! c = Some spec →
  v ∈ dropna (col df c) →
  match spec with
  | IntRange lo hi =>
      ∃ x, num_of v = Some x ∧ (inject_Z lo <= x)%Q ∧ (x <= inject_Z hi)%Q
  | FloatRange lo hi =>
      ∃ x, num_of v = Some x ∧ (lo <= x)%Q ∧ (x <= hi)%Q
  | Categorical choices =>
      choices ≠ []
      ∧ ((∀ w, w ∈ dropna (col df c) → ∃ s, w = PStr s) → py_str v ∈ choices)
  end.
Proof.
  intros [_ Hspec]%infer_param_space_Some Hv.
  pose proof (infer_spec_covers _ _ _ Hspec Hv) as Hcov.
  destruct spec as [choices|lo hi|lo hi]; [done| |done].
  destruct Hcov as (x & ? & _ & ? & ?). by exists x.
Qed.

(** *** Seeding the study with the past runs *)

Lemma py_clamp_bounds lo hi x :
  (lo <= hi)%Q →
  (lo <= py_max lo (py_min hi x))%Q ∧ (py_max lo (py_min hi x) <= hi)%Q.
Proof.
  intros Hle. unfold py_max, py_min.
  destruct (Qlt_bool x hi) eqn:Hx; destruct (Qlt_bool lo _) eqn:Hlo;
    try apply Qlt_bool_iff in Hx; try apply Qlt_bool_iff in Hlo;
    split; try done; try apply Qle_refl; by apply Qlt_le_weak.
Qed.

Lemma py_clamp_inside lo hi x :
  (lo <= x)%Q → (x <= hi)%Q → (py_max lo (py_min hi x) == x)%Q.
Proof.
  intros Hlo Hhi. unfold py_max, py_min.
  destruct (Qlt_bool x hi) eqn:Hx.
  - destruct (Qlt_bool lo x) eqn:Hl; [apply Qeq_refl|].
    apply Qle_antisym; [done|].
    apply Qnot_lt_le. intros Hc%Qlt_bool_iff. congruence.
  - assert (hi <= x)%Q as Hge.
    { apply Qnot_lt_le. intros Hc%Qlt_bool_iff. congruence. }
    assert (x == hi)%Q as Heq by (by apply Qle_antisym).
    destruct (Qlt_bool lo hi) eqn:Hl; [by apply Qeq_sym|].
    apply Qle_antisym; [done|].
    eapply Qle_trans; [exact Hhi|].
    apply Qnot_lt_le. intros Hc%Qlt_bool_iff. congruence.
Qed.

Lemma py_float_numeric v x : num_of v = Some x → py_float v = Some x.
Proof. by destruct v. Qed.

(** What [past_param] stores for a run of the frame the space was inferred
    from. *)
Lemma past_param_of_inferred (df : DataFrame) c spec (r : Row) :
  r ∈ df → infer_spec (col df c) = Some spec →
  ∃ v, past_param spec (r !! c) = Some v
       ∧ in_domain spec v
       ∧ match spec with
         | Categorical _ => True
         | _ => ∀ x, r !! c ≫= num_of = Some x →
                     ∃ y, num_of v = Some y ∧ (y == x)%Q
         end.
Proof.
  intros Hr Hspec.
  pose proof (infer_spec_well_formed _ _ Hspec) as Hwf.
  assert (∀ w, r !! c = Some w → w ∈ dropna (col df c)) as Hcell.
  { intros w Hw. apply list_elem_of_omap. exists (Some w). split; [|done].
    unfold col. apply list_elem_of_fmap. by exists r. }
  destruct spec as [choices|lo hi|lo hi]; cbn [past_param].
  - destruct choices as [|c0 choices]; [done|]. cbn.
    eexists. split; [done|]. split; [|done]. cbn.
    case_bool_decide; [done|left].
  - destruct Hwf as [Hlt Hnum].
    destruct (r !! c) as [w|] eqn:Hw; cbn.
    + pose proof (infer_spec_covers _ _ _ Hspec (Hcell w eq_refl))
        as (x & Hx & Hwhole & Hlo & Hhi).
      rewrite (py_float_numeric _ _ Hx). cbn.
      apply py_int_whole in Hwhole. rewrite <- Hwhole in Hlo, Hhi.
      rewrite <- Zle_Qle in Hlo, Hhi.
      eexists. split; [done|]. split; [cbn; lia|].
      intros x' Hx'. rewrite Hx in Hx'. simplify_eq. cbn.
      eexists. split; [done|].
      by rewrite Z.max_r, Z.min_r by lia.
    + eexists. split; [done|]. split; [cbn; lia|]. by intros x ?.
  - destruct Hwf as [Hlt%Qlt_le_weak Hnum].
    destruct (r !! c) as [w|] eqn:Hw; cbn.
    + pose proof (infer_spec_covers _ _ _ Hspec (Hcell w eq_refl))
        as (x & Hx & Hlo & Hhi).
      rewrite (py_float_numeric _ _ Hx). cbn.
      eexists. split; [done|]. split; [by apply py_clamp_bounds|].
      intros x' Hx'. rewrite Hx in Hx'. simplify_eq. cbn.
      eexists. split; [done|]. by apply py_clamp_inside.
    + eexists. split; [done|]. split; [by apply py_clamp_bounds|]. by intros x ?.
Qed.

Lemma valid_runs_subset (df : DataFrame) target r :
  r ∈ valid_runs df target → r ∈ df ∧ is_Some (metric target r).
Proof.
  unfold valid_runs. intros [Hr Hv]%elem_of_List_filter.
  split; [done|]. by apply bool_decide_eq_true in Hv.
Qed.

Lemma past_trial_of_inferred (df : DataFrame) feature_cols (r : Row) score :
  r ∈ df →
  let space := _infer_param_space df feature_cols in
  ∃ t, past_trial space r score = Some t
       ∧ value t = Some score
       ∧ ∀ c, params t !! c = space !! c ≫= (λ spec, past_param spec (r !! c)).
Proof.
  intros Hr space. unfold past_trial.
  rewrite bool_decide_eq_true_2.
  - eexists. split; [done|]. split; [done|]. intros c. cbn.
    by rewrite map_lookup_imap.
  - intros c spec [_ Hspec]%infer_param_space_Some.
    destruct (past_param_of_inferred df c spec r Hr Hspec) as (v & -> & _). done.
Qed.

(** X6. Seeding the study from the frame whose space was just inferred
    never raises and adds one trial per run with a target, in run order, with
    that run's score as its value; every trial holds a value for exactly the
    parameters of the space, and each value is accepted by its distribution
    (a listed choice, or a number inside the range), so no trial is refused. *)
Theorem add_past_trials_within_space
    (df : DataFrame) (feature_cols : list string) (target : string) :
  let space := _infer_param_space df feature_cols in
  ∃ trials,
    _add_past_trials df space target = Some trials
    ∧ length trials = length (valid_runs df target)
    ∧ ∀ i r t, valid_runs df target !! i = Some r → trials !! i = Some t →
        value t = metric target r
        ∧ (∀ c, is_Some (params t !! c) ↔ is_Some (space !! c))
        ∧ ∀ c spec, space !! c = Some spec →
            ∃ v, params t !! c = Some v ∧ in_domain spec v.
Proof.
  intros space.
  assert (Forall (λ r : Row, is_Some (metric target r ≫= past_trial space r))
            (valid_runs df target)) as Hall.
  { apply Forall_forall. intros r [Hr [score Hscore]]%valid_runs_subset.
    rewrite Hscore. cbn.
    destruct (past_trial_of_inferred df feature_cols r score Hr) as (t & Ht & _).
    fold space in Ht. by rewrite Ht. }
  apply (mapM_is_Some_2 (λ r : Row, metric target r ≫= past_trial space r))
    in Hall as [trials Htrials].
  exists trials. split; [exact Htrials|].
  apply mapM_Some_1 in Htrials.
  split; [symmetry; by eapply Forall2_length|].
  intros i r t Hi Ht.
  pose proof (Forall2_lookup_lr _ _ _ _ _ _ Htrials Hi Ht) as Hrt. cbn in Hrt.
  destruct (valid_runs_subset df target r) as [Hr [score Hscore]];
    [by eapply list_elem_of_lookup_2|].
  rewrite Hscore in Hrt. cbn in Hrt.
  destruct (past_trial_of_inferred df feature_cols r score Hr)
    as (t' & Ht' & Hval & Hpar).
  fold space in Ht', Hpar. rewrite Ht' in Hrt. simplify_eq.
  split; [by rewrite Hscore|].
  assert (∀ c spec, space !! c = Some spec →
            ∃ v, params t !! c = Some v ∧ in_domain spec v) as Hdom.
  { intros c spec Hspec. rewrite Hpar, Hspec. cbn.
    apply infer_param_space_Some in Hspec as [_ Hspec].
    destruct (past_param_of_inferred df c spec r Hr Hspec) as (v & -> & Hin & _).
    by exists v. }
  split; [|done].
  intros c. rewrite Hpar. split.
  - destruct (space !! c); [done|by intros [? ?]].
  - intros [spec Hspec]. destruct (Hdom c spec Hspec) as (v & Hv & _).
    rewrite <- Hpar, Hv. done.
Qed.

(** X7. A run's numeric parameter reaches its trial unchanged in value:
    for a parameter with an integer or real range, the trial of a run that
    has a value for it stores that same number (as an integer for an integer
    range); the clamping into the range never moves a historical value. *)
Theorem add_past_trials_keeps_numeric_values
    (df : DataFrame) (feature_cols : list string) (target : string)
    (trials : list trial) (i : nat) (r : Row) (t : trial)
    (c : string) (spec : param_spec) (x : Q) :
  let space := _infer_param_space df feature_cols in
  _add_past_trials df space target = Some trials →
  valid_runs df target !! i = Some r →
  trials !! i = Some t →
  space !! c = Some spec →
  (∀ choices, spec ≠ Categorical choices) →
  r !! c ≫= num_of = Some x →
  ∃ v y, params t !! c = Some v ∧ num_of v = Some y ∧ (y == x)%Q
         ∧ match spec with
           | IntRange _ _ => ∃ z, v = PInt z
           | _ => ∃ q, v = PFloat q
           end.
Proof.
  intros space Htrials Hi Ht Hspec Hrange Hx.
  apply mapM_Some_1 in Htrials.
  pose proof (Forall2_lookup_lr _ _ _ _ _ _ Htrials Hi Ht) as Hrt. cbn in Hrt.
  destruct (valid_runs_subset df target r) as [Hr [score Hscore]];
    [by eapply list_elem_of_lookup_2|].
  rewrite Hscore in Hrt. cbn in Hrt.
  destruct (past_trial_of_inferred df feature_cols r score Hr)
    as (t' & Ht' & _ & Hpar).
  fold space in Ht', Hpar. rewrite Ht' in Hrt. simplify_eq.
  rewrite Hpar, Hspec. cbn.
  apply infer_param_space_Some in Hspec as [_ Hspec].
  destruct (past_param_of_inferred df c spec r Hr Hspec) as (v & Hv & Hin & Hnum).
  rewrite Hv. exists v.
  destruct spec as [choices|lo hi|lo hi]; [by destruct (Hrange choices)|..];
    destruct (Hnum x Hx) as (y & Hy & Hyx); exists y;
    (split_and!; [done..|]); destruct v; cbn in Hin; try done; by eexists.
Qed.

(** *** The recommender, continued *)

Lemma StronglySorted_sublist {A} (R : relation A) l1 l2 :
  l1 `sublist_of` l2 → StronglySorted R l2 → StronglySorted R l1.
Proof.
  induction 1 as [|x l1 l2 Hsub IH|x l1 l2 Hsub IH]; intros Hs.
  - constructor.
  - apply StronglySorted_cons in Hs as [Hall Hs].
    constructor; [by apply IH|].
    apply Forall_forall. intros y Hy. rewrite Forall_forall in Hall.
    apply Hall. by eapply elem_of_sublist.
  - apply StronglySorted_cons in Hs as [_ Hs]. by apply IH.
Qed.

Lemma StronglySorted_weaken {A} (R R' : relation A) l :
  (∀ a b, R a b → R' a b) → StronglySorted R l → StronglySorted R' l.
Proof.
  intros Himpl. induction 1 as [|x l Hs IH Hall]; constructor; [done|].
  eapply Forall_impl; [exact Hall|]. cbn. auto.
Qed.

Lemma dedupe_sublist feature_cols seen scored :
  dedupe feature_cols seen scored `sublist_of` scored.
Proof.
  revert seen. induction scored as [|[cand score] rest IH]; intros seen; cbn.
  - constructor.
  - case_decide; [by apply sublist_cons|by apply sublist_skip].
Qed.

Lemma dedupe_NoDup feature_cols seen scored :
  NoDup ((λ x, config_key feature_cols x.1) <$> dedupe feature_cols seen scored).
Proof.
  revert seen. induction scored as [|[cand score] rest IH]; intros seen; cbn.
  - constructor.
  - case_decide as Hseen; [apply IH|].
    cbn. constructor; [|apply IH].
    intros (x & Hkey & Hx)%list_elem_of_fmap.
    apply dedupe_fresh in Hx. rewrite <- Hkey in Hx. clear -Hx. set_solver.
Qed.

Lemma fallback_loop_length feature_cols existing n trials result :
  (Z.of_nat (length result) < n)%Z →
  (Z.of_nat (length (fallback_loop feature_cols existing n trials result)) ≤ n)%Z.
Proof.
  revert result. induction trials as [|t rest IH]; intros result Hlen; cbn.
  - lia.
  - destruct (value t) as [v|]; [|by apply IH].
    set (result' := if decide (config_key feature_cols (params t) ∈ existing)
                    then result else result ++ [(params t, v)]).
    assert (length result' ≤ S (length result))%nat as Hstep.
    { subst result'. case_decide; [lia|]. rewrite length_app. cbn. lia. }
    destruct (Z.leb_spec n (Z.of_nat (length result'))); [lia|by apply IH].
Qed.

Lemma fallback_loop_from_trials feature_cols existing n trials result x :
  x ∈ fallback_loop feature_cols existing n trials result →
  x ∈ result ∨ ∃ t, t ∈ trials ∧ params t = x.1 ∧ value t = Some x.2.
Proof.
  revert result. induction trials as [|t rest IH]; intros result; cbn.
  - by left.
  - destruct (value t) as [v|] eqn:Hv.
    + set (result' := if decide (config_key feature_cols (params t) ∈ existing)
                      then result else result ++ [(params t, v)]).
      assert (x ∈ result' → x ∈ result ∨ x = (params t, v)) as Hres'.
      { subst result'. case_decide; [by left|].
        intros [?|?%list_elem_of_singleton]%elem_of_app; [by left|by right]. }
      assert (x = (params t, v) →
              ∃ t0, t0 ∈ t :: rest ∧ params t0 = x.1 ∧ value t0 = Some x.2)
        as Hhere.
      { intros ->. exists t. split; [left|done]. }
      destruct (n <=? Z.of_nat (length result'))%Z.
      * intros [?|?]%Hres'; [by left|right; by apply Hhere].
      * intros [[?|?]%Hres'|(t0 & Ht0 & Hp)]%IH.
        -- by left.
        -- right. by apply Hhere.
        -- right. exists t0. split; [by right|done].
    + intros [?|(t0 & Ht0 & Hp)]%IH; [by left|right].
      exists t0. split; [by right|done].
Qed.

Lemma sample_candidates_nonempty space feature_cols n existing :
  sample_candidates space feature_cols n existing ≠ [] → (1 ≤ n)%Z.
Proof.
  unfold sample_candidates. intros Hne.
  destruct (Z.to_nat (n * 40)) eqn:Hn; [done|lia].
Qed.

(** X8. [_suggest_next] never returns more than the requested number of
    suggestions, and none at all for a request of zero or fewer. *)
Theorem suggest_next_at_most_n
    (study_trials : list trial) (space : gmap string param_spec)
    (surrogate : option FeatureTable) (feature_cols : list string) (n : Z)
    (df_existing : DataFrame) (suggestions : list (gmap string pyval * Q)) :
  _suggest_next study_trials space surrogate feature_cols n df_existing
  = Some suggestions →
  (Z.of_nat (length suggestions) ≤ Z.max n 0)%Z.
Proof.
  unfold _suggest_next. intros Hret.
  destruct (sample_candidates _ _ _ _) as [|p ps] eqn:Hcands.
  { simplify_eq. cbn. lia. }
  assert (1 ≤ n)%Z as Hn.
  { eapply sample_candidates_nonempty. by rewrite Hcands. }
  destruct surrogate as [X_train|].
  - destruct (mapM _ (p :: ps)) as [scored|]; cbn in Hret; [|done].
    simplify_eq. rewrite length_take. lia.
  - simplify_eq.
    etrans; [apply fallback_loop_length; cbn; lia|lia].
Qed.

(** X9. With a surrogate, the suggestions come back with their predicted
    scores in descending order, and no two of them have the same key: a
    configuration is suggested once. *)
Theorem suggest_next_scored_sorted_and_distinct
    (study_trials : list trial) (space : gmap string param_spec)
    (X_train : FeatureTable) (feature_cols : list string) (n : Z)
    (df_existing : DataFrame) (suggestions : list (gmap string pyval * Q)) :
  _suggest_next study_trials space (Some X_train) feature_cols n df_existing
  = Some suggestions →
  StronglySorted (λ a b, (b.2 <= a.2)%Q) suggestions
  ∧ NoDup ((λ x, config_key feature_cols x.1) <$> suggestions).
Proof.
  unfold _suggest_next. intros Hret.
  destruct (sample_candidates _ _ _ _) as [|p ps] eqn:Hcands.
  { simplify_eq. split; constructor. }
  destruct (mapM _ (p :: ps)) as [scored|]; cbn in Hret; [|done].
  simplify_eq. split.
  - eapply StronglySorted_sublist; [apply sublist_take|].
    eapply StronglySorted_sublist; [apply dedupe_sublist|].
    eapply StronglySorted_weaken; last first.
    + apply (py_sorted_sorted (λ a b : gmap string pyval * Q, Qle_bool b.2 a.2)).
      * intros a b. apply Qle_bool_total.
      * intros a b c ??. by eapply Qle_bool_trans.
    + intros a b. cbn. by rewrite Qle_bool_iff.
  - apply (sublist_NoDup _ ((λ x, config_key feature_cols x.1)
                             <$> dedupe feature_cols ∅
                                   (py_sorted (λ a b, Qle_bool b.2 a.2) scored))).
    + apply dedupe_NoDup.
    + apply fmap_sublist, sublist_take.
Qed.

(** X10. Without a surrogate nothing new is proposed: every returned
    configuration is the parameter set of one of the study's own trials,
    returned with that trial's value as its score. *)
Theorem suggest_next_fallback_returns_study_trials
    (study_trials : list trial) (space : gmap string param_spec)
    (feature_cols : list string) (n : Z) (df_existing : DataFrame)
    (suggestions : list (gmap string pyval * Q))
    (cand : gmap string pyval) (score : Q) :
  _suggest_next study_trials space None feature_cols n df_existing
  = Some suggestions →
  (cand, score) ∈ suggestions →
  ∃ t, t ∈ study_trials ∧ params t = cand ∧ value t = Some score.
Proof.
  unfold _suggest_next. intros Hret Hin.
  destruct (sample_candidates _ _ _ _) as [|p ps].
  { simplify_eq. by apply elem_of_nil in Hin. }
  simplify_eq.
  apply fallback_loop_from_trials in Hin as [Hin|(t & Ht & Hp & Hv)].
  - by apply elem_of_nil in Hin.
  - exists t. split; [|done]. by rewrite py_sorted_perm in Ht.
Qed.

(** *** The encoding, continued *)

Lemma median_in_range (l : list Q) :
  l ≠ [] →
  ∃ m a b, median l = Some m ∧ a ∈ l ∧ b ∈ l ∧ (a <= m)%Q ∧ (m <= b)%Q.
Proof.
  intros Hne. unfold median.
  set (s := py_sorted Qle_bool l).
  assert (length s = length l) as Hlen
    by apply Permutation_length, py_sorted_perm.
  assert (∀ x, x ∈ s → x ∈ l) as Hin
    by (intros x; unfold s; by rewrite py_sorted_perm).
  assert (length s ≠ 0)%nat as Hn by (rewrite Hlen; by destruct l).
  rewrite (proj2 (Nat.eqb_neq _ _) Hn).
  destruct (Nat.odd (length s)) eqn:Hodd.
  - destruct (lookup_lt_is_Some_2 s (length s / 2)) as [a Ha].
    { apply Nat.div_lt; lia. }
    exists a, a, a. rewrite Ha.
    assert (a ∈ l) by (by eapply Hin, list_elem_of_lookup_2).
    split_and!; [done|done|done|apply Qle_refl|apply Qle_refl].
  - assert (2 ≤ length s)%nat as H2.
    { destruct (length s) as [|[|?]]; [done|discriminate|lia]. }
    pose proof (Nat.div_lt (length s) 2 ltac:(lia) ltac:(lia)) as Hhi.
    pose proof (Nat.div_str_pos (length s) 2 ltac:(lia)) as Hlo.
    destruct (lookup_lt_is_Some_2 s (length s / 2 - 1)) as [a Ha]; [lia|].
    destruct (lookup_lt_is_Some_2 s (length s / 2)) as [b Hb]; [lia|].
    rewrite Ha, Hb. exists ((a + b) / 2)%Q, a, b.
    assert (a <= b)%Q as Hab.
    { apply Qle_bool_iff.
      eapply (StronglySorted_lookup (λ u v, Qle_bool u v = true) s
                (length s / 2 - 1) (length s / 2)); [|lia|done..].
      apply py_sorted_sorted; [apply Qle_bool_total|apply Qle_bool_trans]. }
    assert (a ∈ l) by (by eapply Hin, list_elem_of_lookup_2).
    assert (b ∈ l) by (by eapply Hin, list_elem_of_lookup_2).
    split_and!; [done|done|done| |];
      unfold Qdiv; change (/ 2)%Q with (1 # 2)%Q; lra.
Qed.

Lemma values_floats_elem (s : Series) x :
  x ∈ values (floats s) ↔ ∃ v, Some v ∈ s ∧ num_of v = Some x.
Proof.
  unfold values, floats. rewrite list_elem_of_omap. split.
  - intros (o & Ho & Hid). cbn in Hid. subst o.
    apply list_elem_of_fmap in Ho as ([v|] & Hv & Hin); [|done].
    exists v. split; [done|]. by symmetry.
  - intros (v & Hv & Hx). exists (Some x). split; [|done].
    apply list_elem_of_fmap. exists (Some v). split; [by symmetry|done].
Qed.

Lemma elem_of_dropna (s : Series) v : v ∈ dropna s ↔ Some v ∈ s.
Proof.
  unfold dropna. rewrite list_elem_of_omap. split.
  - intros (o & Ho & Hid). unfold id in Hid. by subst o.
  - intros Hv. by exists (Some v).
Qed.

(** X11. A numeric feature with at least one value comes out of
    [encode_features] without a missing cell: the cells that had a value keep
    it, the others all receive the column's median, and that median lies
    between two values that were observed. *)
Theorem encode_features_imputes_median
    (df : DataFrame) (feature_cols : list string) (c : string) :
  c ∈ feature_cols →
  is_numeric_dtype (col df c) = true →
  dropna (col df c) ≠ [] →
  ∃ m cells,
    median (values (floats (col df c))) = Some m
    ∧ (c, cells) ∈ encode_features df feature_cols
    ∧ (∀ i r, df !! i = Some r →
         cells !! i = Some (Some (match r !! c ≫= num_of with
                                  | Some x => x
                                  | None => m
                                  end)))
    ∧ ∃ a b, a ∈ values (floats (col df c)) ∧ b ∈ values (floats (col df c))
             ∧ (a <= m)%Q ∧ (m <= b)%Q.
Proof.
  intros Hc Hnum Hne.
  assert (values (floats (col df c)) ≠ []) as Hvals.
  { destruct (dropna (col df c)) as [|v vs] eqn:Hs; [done|].
    assert (v ∈ dropna (col df c)) as Hv by (rewrite Hs; left).
    destruct (numeric_column_values _ _ Hnum Hv) as (x & Hx & _).
    intros Hnil.
    assert (x ∈ values (floats (col df c))) as Hxin.
    { apply values_floats_elem. exists v. split; [by apply elem_of_dropna|done]. }
    rewrite Hnil in Hxin. by apply elem_of_nil in Hxin. }
  destruct (median_in_range _ Hvals) as (m & a & b & Hm & Ha & Hb & Hle).
  exists m, (fillna_median (floats (col df c))). split_and!.
  - done.
  - unfold encode_features. apply elem_of_app. left.
    apply list_elem_of_fmap. exists c. split; [done|].
    by apply elem_of_List_filter.
  - intros i r Hi. unfold fillna_median, floats.
    rewrite !list_lookup_fmap, (col_lookup _ _ _ _ Hi). cbn.
    fold (floats (col df c)). rewrite Hm.
    by destruct (r !! c ≫= num_of).
  - by exists a, b.
Qed.

Lemma get_dummies_nonempty prefix (s : Series) :
  dropna s ≠ [] → get_dummies prefix s ≠ [].
Proof.
  intros Hne Hnil. apply (f_equal length) in Hnil.
  unfold get_dummies in Hnil.
  rewrite length_fmap, (Permutation_length (py_sorted_perm _ _)) in Hnil.
  by destruct (dropna s).
Qed.

Lemma object_column_has_value (s : Series) :
  is_numeric_dtype s = false → dropna s ≠ [].
Proof. unfold is_numeric_dtype. by destruct (dropna s). Qed.

Lemma encode_features_empty (df : DataFrame) feature_cols :
  encode_features df feature_cols = [] ↔ feature_cols = [].
Proof.
  split; [|by intros ->].
  destruct feature_cols as [|c cols]; [done|]. intros Hnil. exfalso.
  unfold encode_features in Hnil. apply app_eq_nil in Hnil as [Hn Ho].
  cbn in Hn, Ho.
  destruct (is_numeric_dtype (col df c)) eqn:Hnum; cbn in Hn, Ho; [done|].
  apply app_eq_nil in Ho as [Ho _].
  eapply get_dummies_nonempty; [|exact Ho]. by apply object_column_has_value.
Qed.

(** X12. Every feature column contributes at least one encoded column, so
    [phase2_shap] skips the training exactly when the frame has fewer than two
    runs or there is no feature column at all. *)
Theorem phase2_fit_skipped_iff
    (df : DataFrame) (feature_cols : list string) (target : string) :
  phase2_fit_inputs df feature_cols target = None ↔
  (length df < 2)%nat ∨ feature_cols = [].
Proof.
  unfold phase2_fit_inputs, table_empty.
  pose proof (encode_features_empty df feature_cols) as Hempty.
  destruct (encode_features df feature_cols) as [|x X] eqn:HX.
  - rewrite orb_true_r. cbn. split; [right; by apply Hempty|done].
  - cbn [length Nat.eqb]. rewrite !orb_false_r.
    assert (feature_cols ≠ []) as Hne by (intros H; by apply Hempty in H).
    destruct df as [|r0 [|r1 df]]; cbn; split; try done; try (left; lia);
      intros [?|?]; done || lia.
Qed.

(** *** The causal phase, continued *)

(** X13. A supplied treatment that is one of the feature columns is used
    as it is, without any automatic choice; a supplied non-empty name that is
    no feature column is dropped and the phase behaves exactly as if none had
    been given; the empty string slips through that check and, being no
    column, ends in a KeyError. *)
Theorem phase4_dowhy_supplied_treatment
    (df : DataFrame) (feature_cols : list string) (target t : string) :
  (6 ≤ length df)%nat →
  (t ∈ feature_cols →
     phase4_dowhy true df feature_cols target (Some t)
     = prepare df feature_cols target t None)
  ∧ (t ∉ feature_cols → t ≠ "" →
     phase4_dowhy true df feature_cols target (Some t)
     = phase4_dowhy true df feature_cols target None)
  ∧ ("" ∉ feature_cols → target ≠ "" →
     phase4_dowhy true df feature_cols target (Some "") = Raised "KeyError").
Proof.
  intros Hlen. unfold phase4_dowhy. cbn [negb].
  assert ((length df <? 6)%nat = false) as -> by (apply Nat.ltb_ge; lia).
  split_and!.
  - intros Ht. rewrite (bool_decide_eq_false_2 (t ∉ feature_cols)) by auto.
    by rewrite andb_false_r.
  - intros Ht Hne. rewrite (bool_decide_eq_true_2 (t ∉ feature_cols)) by done.
    unfold truthy. by rewrite (proj2 (String.eqb_neq _ _) Hne).
  - intros Hnot Htarget. cbn. unfold prepare.
    rewrite bool_decide_eq_true_2; [done|].
    intros [?|?%list_elem_of_singleton]%elem_of_app; [done|congruence].
Qed.

Lemma col_set_column (df : DataFrame) c (s : Series) :
  length s = length df → col (set_column df c s) c = s.
Proof.
  intros Hlen. apply list_eq. intros i. unfold col.
  rewrite list_lookup_fmap.
  destruct (df !! i) as [r|] eqn:Hr.
  - destruct (lookup_lt_is_Some_2 s i) as [cell Hcell].
    { rewrite Hlen. by eapply lookup_lt_Some. }
    destruct (set_column_cell df c s i r cell Hr Hcell) as (r' & -> & Hc).
    cbn. by rewrite Hc, Hcell.
  - unfold set_column. rewrite lookup_zip_with, Hr. cbn.
    symmetry. apply lookup_ge_None. rewrite Hlen. by apply lookup_ge_None.
Qed.

Lemma df_dw_cell (df : DataFrame) feature_cols target c v :
  Some v ∈ col (df_dw df feature_cols target) c → Some v ∈ col df c.
Proof.
  unfold col, df_dw. rewrite <- list_fmap_compose.
  intros (r & Hv & Hr)%list_elem_of_fmap. cbn in Hv.
  apply valid_runs_subset in Hr as [Hr _].
  symmetry in Hv. apply map_lookup_filter_Some in Hv as [Hv _].
  apply list_elem_of_fmap. exists r. by split.
Qed.

Lemma is_numeric_dtype_alt (s : Series) :
  is_numeric_dtype s = true ↔ ∀ v, Some v ∈ s → is_num v = true.
Proof.
  unfold is_numeric_dtype. rewrite forallb_forall. split.
  - intros H v Hv. apply H, list_elem_of_In. by apply elem_of_dropna.
  - intros H v Hv. apply H, elem_of_dropna. by apply list_elem_of_In.
Qed.

(** X14. Whenever the preparation of the treatment succeeds, the treatment
    column of the prepared frame holds numbers only (0/1 marks, ordinal
    codes, or the untouched numeric values) and the frame is as long as the
    number of runs with a target. *)
Theorem prepare_makes_treatment_numeric
    (df : DataFrame) (feature_cols : list string) (target : string)
    (treatment_col : string) (pos : option pyval) (t : string) (d : DataFrame) :
  prepare df feature_cols target treatment_col pos = Estimating t d →
  t = treatment_col
  ∧ length d = length (valid_runs df target)
  ∧ is_numeric_dtype (col d t) = true.
Proof.
  intros Hprep. split_and!.
  - unfold prepare in Hprep. by repeat case_match; simplify_eq.
  - by eapply prepare_keeps_valid_runs.
  - unfold prepare in Hprep.
    set (dw := df_dw df feature_cols target) in *.
    destruct (bool_decide _); [done|].
    apply is_numeric_dtype_alt. intros v.
    destruct (is_numeric_dtype (col df treatment_col)) eqn:Hnum.
    + destruct (2 <? nunique (col dw treatment_col))%nat; simplify_eq.
      * rewrite col_set_column
          by (unfold bucket_numeric; by rewrite length_fmap, length_col).
        unfold bucket_numeric. intros (cell & Hv & _)%list_elem_of_fmap.
        by simplify_eq.
      * intros Hv%df_dw_cell. by eapply is_numeric_dtype_alt.
    + destruct pos as [p|].
      * simplify_eq.
        rewrite col_set_column
          by (unfold one_vs_rest; by rewrite length_fmap, length_col).
        unfold one_vs_rest. intros (cell & Hv & _)%list_elem_of_fmap.
        by simplify_eq.
      * destruct (ordinal (col dw treatment_col)) as [codes|] eqn:Hord; [|done].
        simplify_eq.
        rewrite col_set_column
          by (erewrite length_ordinal by done; by rewrite length_col).
        unfold ordinal in Hord. case_match; [|done]. simplify_eq.
        intros ([w|] & Hv & _)%list_elem_of_fmap; [|done]. cbn in Hv.
        destruct (index_of w _) as [z|]; cbn in Hv; by simplify_eq.
Qed.

(** X15. A refutation check is marked as passed only when there is a new
    effect, the ATE is not zero, the new effect has the sign of the ATE and
    its size lies strictly between half and one and a half times the size of
    the ATE; with an ATE of exactly zero no check ever passes. *)
Theorem refutation_passes_means_close
    (new_effect : option Q) (ate : Q) :
  refutation_passes new_effect ate = true →
  ∃ e, new_effect = Some e
       ∧ ¬ (ate == 0)%Q
       ∧ (0 < e * ate)%Q
       ∧ (Qabs ate * 0.5 < Qabs e)%Q
       ∧ (Qabs e < Qabs ate * 1.5)%Q.
Proof.
  unfold refutation_passes. destruct new_effect as [e|]; [|done].
  intros H%Qlt_bool_iff. exists e. split; [done|].
  apply Qabs_Qlt_condition in H as [H1 H2].
  revert H1 H2. apply (Qabs_case ate); intros Ha H1 H2;
    apply (Qabs_case e); intros He; split_and!; nra.
Qed.

Lemma py_eqb_str_l a v : py_eqb (PStr a) v = true → v = PStr a.
Proof.
  destruct v as [z|q|t]; cbn; [done..|]. by intros ->%String.eqb_eq.
Qed.

Lemma py_eqb_refl v : py_eqb v v = true.
Proof.
  destruct v as [z|q|t]; cbn.
  - apply Qeq_bool_iff. reflexivity.
  - apply Qeq_bool_iff. reflexivity.
  - apply String.eqb_refl.
Qed.

Lemma py_eqb_trans u v w :
  py_eqb u v = true → py_eqb v w = true → py_eqb u w = true.
Proof.
  destruct u as [z1|q1|t1], v as [z2|q2|t2], w as [z3|q3|t3]; cbn; try done;
    rewrite ?Qeq_bool_iff, ?String.eqb_eq; try congruence;
    intros H1 H2; by rewrite H1.
Qed.

(** Every value of a column is represented in [unique]. *)
Lemma unique_covers l v : v ∈ l → ∃ u, u ∈ unique l ∧ py_eqb u v = true.
Proof.
  induction l as [|x l IH]; [by intros ?%elem_of_nil|].
  intros [->|Hin]%elem_of_cons; cbn.
  - exists x. split; [left|apply py_eqb_refl].
  - destruct (IH Hin) as (u & Hu & Huv).
    destruct (py_eqb x u) eqn:Hxu.
    + exists x. split; [left|by eapply py_eqb_trans].
    + exists u. split; [|done]. right.
      apply elem_of_List_filter. split; [done|by rewrite Hxu].
Qed.

(** X16. A treatment column with exactly two categories, both strings, is
    coded 0 and 1 in the order of the strings: the category that sorts first
    becomes 0, the other 1, and a missing cell stays missing. *)
Theorem ordinal_two_categories (s : Series) (a b : string) :
  unique (dropna s) = [PStr a; PStr b] →
  let first := if String.leb a b then a else b in
  ∃ codes,
    ordinal s = Some codes
    ∧ length codes = length s
    ∧ ∀ i cell, s !! i = Some cell →
        codes !! i
        = Some (match cell with
                | Some v => Some (PInt (if py_eqb v (PStr first) then 0 else 1))
                | None => None
                end).
Proof.
  intros Huniq first.
  assert (a ≠ b) as Hab.
  { destruct (dropna s) as [|x l]; [done|]. cbn in Huniq.
    injection Huniq as -> Hrest. intros ->.
    assert (PStr b ∈ List.filter (λ y, negb (py_eqb (PStr b) y)) (unique l)) as Hin
      by (rewrite Hrest; left).
    apply elem_of_List_filter in Hin as [_ Hin].
    by rewrite py_eqb_refl in Hin. }
  unfold ordinal. rewrite Huniq. cbn [forallb is_num num_of negb andb orb].
  eexists. split; [done|]. split; [by rewrite length_fmap|].
  intros i cell Hi. rewrite list_lookup_fmap, Hi. cbn. f_equal.
  destruct cell as [v|]; [|done]. cbn.
  assert (v = PStr a ∨ v = PStr b) as Hv.
  { destruct (unique_covers (dropna s) v) as (u & Hu & Huv).
    - apply elem_of_dropna. by eapply list_elem_of_lookup_2.
    - rewrite Huniq in Hu.
      apply elem_of_cons in Hu as [->|Hu]; [left; by apply py_eqb_str_l|].
      apply list_elem_of_singleton in Hu as ->. right. by apply py_eqb_str_l. }
  assert (String.eqb a b = false) as Hab' by (by apply String.eqb_neq).
  assert (String.eqb b a = false) as Hba' by (by apply String.eqb_neq).
  unfold py_sorted, category_le, first. cbn.
  destruct (String.leb a b); destruct Hv as [-> | ->]; cbn;
    rewrite ?String.eqb_refl, ?Hab', ?Hba'; done.
Qed.

(** *** Scoring a candidate *)

Lemma prefix_length (s1 s2 : string) :
  String.prefix s1 s2 = true → (String.length s1 ≤ String.length s2)%nat.
Proof.
  revert s2. induction s1 as [|a s1 IH]; intros s2; cbn; [lia|].
  destruct s2 as [|b s2]; [done|]. cbn.
  destruct (Ascii.ascii_dec a b); [|done]. intros H%IH. lia.
Qed.

Lemma length_append (s1 s2 : string) :
  String.length (s1 +:+ s2) = (String.length s1 + String.length s2)%nat.
Proof. induction s1 as [|a s1 IH]; simpl; [done|]. by f_equal. Qed.

(** X17. When a column of the training table has a name that begins with
    a feature name followed by an underscore, the candidate is encoded in that
    column as a 0/1 indicator, and the value the candidate holds under the
    column's own name makes no difference.  A numeric feature whose name
    extends another feature's name in this way is therefore scored as an
    indicator, not by its value. *)
Theorem encode_cell_prefix_gives_indicator
    (feature_cols : list string) (cand cand' : gmap string pyval)
    (column : string * list (option Q)) (fc : string) :
  fc ∈ feature_cols →
  String.prefix (fc +:+ "_") column.1 = true →
  (encode_cell feature_cols cand column = Some (Some 0%Q)
   ∨ encode_cell feature_cols cand column = Some (Some 1%Q))
  ∧ ((∀ c, c ≠ column.1 → cand' !! c = cand !! c) →
     encode_cell feature_cols cand' column = encode_cell feature_cols cand column).
Proof.
  intros Hfc Hprefix. unfold encode_cell.
  destruct (List.find _ feature_cols) as [fc'|] eqn:Hfind.
  - apply find_some in Hfind as [_ Hpre]. split.
    + case_match; [by right|by left].
    + intros Hsame. rewrite (Hsame fc'); [done|].
      intros ->. apply prefix_length in Hpre.
      rewrite length_append in Hpre. cbn in Hpre. lia.
  - eapply find_none in Hfind; [|by apply list_elem_of_In].
    cbn in Hfind. congruence.
Qed.

(** *** The metrics of one LLM run *)

Lemma inject_nat_pos (n : nat) : (0 < n)%nat → (0 < inject_Z (Z.of_nat n))%Q.
Proof. intros Hn. change 0%Q with (inject_Z 0). rewrite <- Zlt_Qlt. lia. Qed.

Lemma inject_nat_nonneg (n : nat) : (0 <= inject_Z (Z.of_nat n))%Q.
Proof. change 0%Q with (inject_Z 0). rewrite <- Zle_Qle. lia. Qed.

Lemma Qdiv_nonneg (a b : Q) : (0 <= a)%Q → (0 <= b)%Q → (0 <= a / b)%Q.
Proof.
  intros Ha Hb. apply Qmult_le_0_compat; [done|by apply Qinv_le_0_compat].
Qed.

Lemma ratio_pos_iff (h n : nat) :
  (0 < n)%nat →
  (0 < inject_Z (Z.of_nat h) / inject_Z (Z.of_nat n))%Q ↔ (0 < h)%nat.
Proof.
  intros Hn. split.
  - intros H. destruct h as [|h]; [|lia]. exfalso.
    unfold Qdiv in H. cbn in H. rewrite Qmult_0_l in H. by apply Qlt_irrefl in H.
  - intros Hh. apply Qlt_shift_div_l; [by apply inject_nat_pos|].
    rewrite Qmult_0_l. by apply inject_nat_pos.
Qed.

Lemma ratio_le_1 (h n : nat) :
  (0 < n)%nat → (h ≤ n)%nat →
  (inject_Z (Z.of_nat h) / inject_Z (Z.of_nat n) <= 1)%Q.
Proof.
  intros Hn Hle. apply Qle_shift_div_r; [by apply inject_nat_pos|].
  rewrite Qmult_1_l, <- Zle_Qle. lia.
Qed.

Lemma reciprocal_pos (i : nat) :
  (0 < 1 / inject_Z (Z.of_nat (i + 1)))%Q ∧ (1 / inject_Z (Z.of_nat (i + 1)) <= 1)%Q.
Proof.
  split.
  - apply Qlt_shift_div_l; [apply inject_nat_pos; lia|]. by rewrite Qmult_0_l.
  - apply Qle_shift_div_r; [apply inject_nat_pos; lia|].
    rewrite Qmult_1_l. change 1%Q with (inject_Z 1). rewrite <- Zle_Qle. lia.
Qed.

Lemma reciprocal_rank_bounds is_match i retrieved :
  (0 <= reciprocal_rank is_match i retrieved)%Q
  ∧ (reciprocal_rank is_match i retrieved <= 1)%Q.
Proof.
  revert i. induction retrieved as [|ret rest IH]; intros i; cbn; [done|].
  destruct (is_match ret); [|apply IH].
  destruct (reciprocal_pos i) as [Hpos Hle]. split; [by apply Qlt_le_weak|done].
Qed.

Lemma reciprocal_rank_pos is_match i retrieved :
  (0 < reciprocal_rank is_match i retrieved)%Q ↔
  ∃ ret, ret ∈ retrieved ∧ is_match ret = true.
Proof.
  revert i. induction retrieved as [|ret rest IH]; intros i; cbn.
  - split; [by intros ?%Qlt_irrefl|by intros (? & ?%elem_of_nil & _)].
  - destruct (is_match ret) eqn:Hm.
    + split; [|intros _; apply reciprocal_pos].
      intros _. exists ret. split; [left|done].
    + rewrite IH. split.
      * intros (x & Hx & Hp). exists x. split; [by right|done].
      * intros (x & [->|Hx]%elem_of_cons & Hp); [congruence|by exists x].
Qed.

Lemma count_hits_le retrieved expected :
  (count_hits retrieved expected ≤ length expected)%nat.
Proof. unfold count_hits. apply filter_length_le. Qed.

Lemma count_hits_pos retrieved expected :
  (0 < count_hits retrieved expected)%nat ↔
  ∃ ret exp, ret ∈ retrieved ∧ exp ∈ expected ∧ matches ret exp = true.
Proof.
  unfold count_hits. split.
  - intros Hlen.
    destruct (List.filter _ expected) as [|exp l] eqn:Hf; [cbn in Hlen; lia|].
    assert (exp ∈ List.filter (λ exp, existsb (λ ret, matches ret exp) retrieved)
                     expected) as Hin by (rewrite Hf; left).
    apply elem_of_List_filter in Hin as [Hexp Hany].
    apply existsb_exists in Hany as (ret & Hret%list_elem_of_In & Hm).
    by exists ret, exp.
  - intros (ret & exp & Hret & Hexp & Hm).
    assert (exp ∈ List.filter (λ exp, existsb (λ ret, matches ret exp) retrieved)
                     expected) as Hin.
    { apply elem_of_List_filter. split; [done|].
      apply existsb_exists. exists ret. split; [by apply list_elem_of_In|done]. }
    destruct (List.filter _ expected); [by apply elem_of_nil in Hin|cbn; lia].
Qed.

(** X18. For any retrieved and expected documents, recall and MRR lie
    between 0 and 1 and precision and F1 are never negative. *)
Theorem compute_run_metrics_bounds (retrieved expected : list string) :
  let m := compute_run_metrics retrieved expected in
  (0 <= recall m)%Q ∧ (recall m <= 1)%Q
  ∧ (0 <= precision m)%Q
  ∧ (0 <= f1 m)%Q
  ∧ (0 <= mrr m)%Q ∧ (mrr m <= 1)%Q.
Proof.
  unfold compute_run_metrics.
  destruct expected as [|e0 es]; [cbn; split_and!; done|].
  set (expected := e0 :: es).
  set (h := count_hits retrieved expected).
  assert (0 < length expected)%nat as Hn by (cbn; lia).
  assert (0 <= inject_Z (Z.of_nat h) / inject_Z (Z.of_nat (length expected)))%Q
    as Hr by (apply Qdiv_nonneg; apply inject_nat_nonneg).
  assert (0 <= match retrieved with
               | [] => 0
               | _ => inject_Z (Z.of_nat h) / inject_Z (Z.of_nat (length retrieved))
               end)%Q as Hp.
  { destruct retrieved; [done|]. apply Qdiv_nonneg; apply inject_nat_nonneg. }
  cbn [recall precision f1 hit mrr]. split_and!.
  - done.
  - apply ratio_le_1; [done|apply count_hits_le].
  - done.
  - destruct (Qlt_bool 0 _) eqn:Hsum; [|done].
    apply Qdiv_nonneg.
    + apply Qmult_le_0_compat; [|done]. by apply Qmult_le_0_compat.
    + replace 0%Q with (0 + 0)%Q by reflexivity. by apply Qplus_le_compat.
  - apply reciprocal_rank_bounds.
  - apply reciprocal_rank_bounds.
Qed.

(** X19. A run is a hit exactly when some retrieved document matches some
    expected one, and that is exactly when its recall is positive and exactly
    when its MRR is positive: the three signals never disagree. *)
Theorem compute_run_metrics_hit_iff (retrieved expected : list string) :
  let m := compute_run_metrics retrieved expected in
  (hit m = true ↔
     ∃ ret exp, ret ∈ retrieved ∧ exp ∈ expected ∧ matches ret exp = true)
  ∧ (hit m = true ↔ (0 < recall m)%Q)
  ∧ (hit m = true ↔ (0 < mrr m)%Q).
Proof.
  unfold compute_run_metrics.
  destruct expected as [|e0 es].
  { cbn. split_and!; (split; [done|]); intros H;
      try (by apply Qlt_irrefl in H);
      by destruct H as (? & ? & _ & ?%elem_of_nil & _). }
  set (expected := e0 :: es). cbn [recall precision f1 hit mrr].
  rewrite Nat.ltb_lt.
  split_and!.
  - apply count_hits_pos.
  - symmetry. apply ratio_pos_iff. cbn. lia.
  - rewrite reciprocal_rank_pos, count_hits_pos. split.
    + intros (ret & exp & Hret & Hexp & Hm). exists ret. split; [done|].
      apply existsb_exists. exists exp. split; [by apply list_elem_of_In|done].
    + intros (ret & Hret & (exp & Hexp%list_elem_of_In & Hm)%existsb_exists).
      by exists ret, exp.
Qed.

Lemma matches_refl s : matches s s = true.
Proof. unfold matches. by rewrite String.eqb_refl. Qed.

Lemma count_hits_self (docs : list string) : count_hits docs docs = length docs.
Proof.
  unfold count_hits. f_equal.
  assert (∀ l, (∀ x, x ∈ l → x ∈ docs) →
               List.filter (λ exp, existsb (λ ret, matches ret exp) docs) l = l)
    as Hall; [|by apply Hall].
  induction l as [|x l IH]; intros Hsub; [done|]. cbn.
  assert (existsb (λ ret, matches ret x) docs = true) as ->.
  { apply existsb_exists. exists x. split; [|apply matches_refl].
    apply list_elem_of_In, Hsub. left. }
  f_equal. apply IH. intros y Hy. apply Hsub. by right.
Qed.

Lemma ratio_same (n : nat) :
  (0 < n)%nat → (inject_Z (Z.of_nat n) / inject_Z (Z.of_nat n) == 1)%Q.
Proof.
  intros Hn. apply Qmult_inv_r. intros Hz.
  pose proof (inject_nat_pos n Hn) as Hpos. rewrite Hz in Hpos.
  by apply Qlt_irrefl in Hpos.
Qed.

(** X20. When the retrieved documents are exactly the expected ones (and
    there is at least one), the run scores 1 for recall, precision, F1 and
    MRR and counts as a hit. *)
Theorem compute_run_metrics_perfect (docs : list string) :
  docs ≠ [] →
  let m := compute_run_metrics docs docs in
  (recall m == 1)%Q ∧ (precision m == 1)%Q ∧ (f1 m == 1)%Q
  ∧ hit m = true ∧ (mrr m == 1)%Q.
Proof.
  intros Hne. unfold compute_run_metrics.
  destruct docs as [|d ds] eqn:Hdocs; [done|]. rewrite <- Hdocs in *.
  assert (0 < length docs)%nat as Hn by (rewrite Hdocs; cbn; lia).
  rewrite count_hits_self.
  pose proof (ratio_same (length docs) Hn) as Hone.
  assert (match docs with
          | [] => 0
          | _ => inject_Z (Z.of_nat (length docs)) / inject_Z (Z.of_nat (length docs))
          end == 1)%Q as Hp by (by rewrite Hdocs at 1).
  cbn [recall precision f1 hit mrr]. split_and!.
  - done.
  - done.
  - set (r := (inject_Z (Z.of_nat (length docs))
               / inject_Z (Z.of_nat (length docs)))%Q) in *.
    assert (Qlt_bool 0 (r + r) = true) as ->.
    { apply Qlt_bool_iff. rewrite Hone. reflexivity. }
    rewrite Hone. reflexivity.
  - by apply Nat.ltb_lt.
  - rewrite Hdocs. cbn [reciprocal_rank existsb].
    rewrite matches_refl. reflexivity.
Qed.

End Analysis.

(** * The properties on the example runs *)

Ltac by_decision := apply (bool_decide_unpack _); vm_compute; exact I.

(** C10 on the six example runs: [top_k] is absent from every record, and
    the encoded table keeps a column of six missing cells. *)
Lemma encode_features_keeps_all_missing_column_witness :
  ("top_k", replicate 6 None)
    ∈ encode_features demo_repr runs_two_modes ["query_mode"; "param_k"; "top_k"]
  ∧ ∃ column,
      column ∈ encode_features demo_repr runs_two_modes
                 ["query_mode"; "param_k"; "top_k"]
      ∧ None ∈ column.2.
Proof.
  apply (encode_features_keeps_all_missing_column demo_repr runs_two_modes
           ["query_mode"; "param_k"; "top_k"] "top_k").
  - by_decision.
  - discriminate.
  - intros r Hr.
    repeat (apply elem_of_cons in Hr as [->|Hr]; [vm_compute; reflexivity|]).
    by apply elem_of_nil in Hr.
Defined.

(** C9 on the six example runs: the run without a score is trained on
    with the score 0. *)
Lemma phase2_fit_keeps_rows_with_missing_target_witness :
  ∃ X y,
    phase2_fit_inputs demo_repr runs_two_modes example_cols "llm_f1" = Some (X, y)
    ∧ X = encode_features demo_repr runs_two_modes example_cols
    ∧ length y = 6%nat
    ∧ y !! 5%nat = Some 0%Q.
Proof.
  destruct (phase2_fit_keeps_rows_with_missing_target demo_repr runs_two_modes
              example_cols "llm_f1") as (X & y & Hfit & HX & Hlen & _ & Hy).
  - cbn. lia.
  - vm_compute. discriminate.
  - exists X, y. split_and!; [done..|].
    by apply (Hy 5%nat (run "hybrid" 6 None)).
Defined.



(** C3, the claim fails on the code: the study is seeded from the six
    example runs, as [phase3_optuna] does. The parameter k, read from the
    reports as a float, gets an integer range; a trial stores 4 where the run
    has 4.0, the two print differently, and the key filter lets the runs
    through. Without a surrogate the two best historical runs come back as
    suggestions; with a surrogate, a sampler that draws hybrid mode with
    k = 4 gets that historical run suggested. *)
Lemma suggest_next_returns_historical_runs :
  ∃ trials,
    _add_past_trials demo_repr (λ _, None) runs_two_modes
      (_infer_param_space demo_repr runs_two_modes example_cols) "llm_f1"
    = Some trials
    ∧ _suggest_next demo_repr low_end_sampler (λ _, None) (λ _, 0%Q) trials
        (_infer_param_space demo_repr runs_two_modes example_cols)
        None example_cols 2 runs_two_modes
      = Some [(<["query_mode" := PStr "hybrid"]> (<["param_k" := PInt 4]> ∅), 0.8%Q);
              (<["query_mode" := PStr "hybrid"]> (<["param_k" := PInt 2]> ∅), 0.7%Q)]
    ∧ _suggest_next demo_repr
        (λ _ _ spec, match spec with
                     | Categorical _ => PStr "hybrid"
                     | IntRange _ _ => PInt 4
                     | FloatRange lo _ => PFloat lo
                     end)
        (λ _, None) (λ _, 0%Q) trials
        (_infer_param_space demo_repr runs_two_modes example_cols)
        (Some (encode_features demo_repr runs_two_modes example_cols))
        example_cols 1 runs_two_modes
      = Some [(<["query_mode" := PStr "hybrid"]> (<["param_k" := PInt 4]> ∅), 0%Q)]
    ∧ run "hybrid" 4 (Some 0.8%Q) ∈ runs_two_modes
    ∧ run "hybrid" 2 (Some 0.7%Q) ∈ runs_two_modes
    ∧ same_configuration example_cols
        (<["query_mode" := PStr "hybrid"]> (<["param_k" := PInt 4]> ∅))
        (run "hybrid" 4 (Some 0.8%Q)) = true
    ∧ same_configuration example_cols
        (<["query_mode" := PStr "hybrid"]> (<["param_k" := PInt 2]> ∅))
        (run "hybrid" 2 (Some 0.7%Q)) = true
    ∧ config_key demo_repr example_cols
        (<["query_mode" := PStr "hybrid"]> (<["param_k" := PInt 4]> ∅))
      = ["hybrid"; "4"]
    ∧ row_key demo_repr example_cols (run "hybrid" 4 (Some 0.8%Q))
      = ["hybrid"; "4.0"].
Proof.
  assert (∃ trials,
            _add_past_trials demo_repr (λ _, None) runs_two_modes
              (_infer_param_space demo_repr runs_two_modes example_cols) "llm_f1"
            = Some trials) as [trials Htrials]
    by (vm_compute; eexists; reflexivity).
  exists trials. split; [exact Htrials|].
  assert (trials
          = default [] (_add_past_trials demo_repr (λ _, None) runs_two_modes
                          (_infer_param_space demo_repr runs_two_modes example_cols)
                          "llm_f1")) as -> by (by rewrite Htrials).
  split_and!; try (vm_compute; reflexivity).
  - do 3 right. left.
  - right. left.
Qed.

(** The key filter on the example runs, fallback path: the study holds one
    trial, hybrid mode with k = 3, which no run used; it is returned, and its
    printed key differs from the printed key of every run. *)
Lemma suggest_next_printed_keys_differ_example :
  let trials := [Trial (<["query_mode" := PStr "hybrid"]>
                          (<["param_k" := PInt 3]> ∅)) (Some 0.7%Q)] in
  let space := _infer_param_space demo_repr runs_two_modes example_cols in
  ∃ cand score,
    _suggest_next demo_repr low_end_sampler (λ _, None) (λ _, 0%Q)
                  trials space None example_cols 1 runs_two_modes
    = Some [(cand, score)]
    ∧ ∀ r, r ∈ runs_two_modes →
           config_key demo_repr example_cols cand
           ≠ row_key demo_repr example_cols r.
Proof.
  intros trials space.
  exists (<["query_mode" := PStr "hybrid"]> (<["param_k" := PInt 3]> ∅)), 0.7%Q.
  assert (_suggest_next demo_repr low_end_sampler (λ _, None) (λ _, 0%Q)
            trials space None example_cols 1 runs_two_modes
          = Some [(<["query_mode" := PStr "hybrid"]> (<["param_k" := PInt 3]> ∅),
                   0.7%Q)]) as Hret by (vm_compute; reflexivity).
  split; [exact Hret|].
  eapply (proj1 (suggest_next_printed_keys_differ demo_repr low_end_sampler
                   (λ _, None) (λ _, 0%Q) trials space None example_cols 1
                   runs_two_modes)); [exact Hret|left].
Defined.

(** C4, the claim as worded fails: mode a has the mean target furthest
    above the overall mean, but it was run once, and mode b is selected. *)
Lemma auto_treatment_skips_single_run_category :
  binary_feats runs_three_modes example_cols = []
  ∧ auto_treatment runs_three_modes example_cols "llm_f1"
    = Some ("query_mode", Some (PStr "b"))
  ∧ match mean (group runs_three_modes "query_mode" (PStr "a") "llm_f1"),
          mean (group runs_three_modes "query_mode" (PStr "b") "llm_f1"),
          overall_mean runs_three_modes "llm_f1" with
    | Some mean_a, Some mean_b, Some overall =>
        (0 < mean_b - overall)%Q ∧ (mean_b - overall < mean_a - overall)%Q
    | _, _, _ => False
    end.
Proof. split_and!; [vm_compute; reflexivity..|]. vm_compute. by split. Qed.

(** C4 on the three-mode runs: step 2 selects a category that no eligible
    category beats. *)
Lemma auto_treatment_policy_witness :
  ∃ f' v' d',
    auto_treatment runs_three_modes example_cols "llm_f1" = Some (f', Some v')
    ∧ eligible runs_three_modes example_cols "llm_f1" f' v' d'
    ∧ (∀ f0 v0 d0, eligible runs_three_modes example_cols "llm_f1" f0 v0 d0 →
                   (d0 <= d')%Q).
Proof.
  destruct (proj1 (proj2 (auto_treatment_policy demo_repr runs_three_modes
                            example_cols "llm_f1")))
    with (f := "query_mode") (v := PStr "b") (d := (1200000000 # 18000000000)%Q)
    as (f' & v' & d' & Hsel & Hel & Hmax & _).
  - vm_compute. reflexivity.
  - by_decision.
  - split_and!.
    + by_decision.
    + assert (unique (dropna (col runs_three_modes "query_mode"))
              = [PStr "a"; PStr "b"; PStr "c"]) as -> by (vm_compute; reflexivity).
      right. left.
    + vm_compute. reflexivity.
    + vm_compute. reflexivity.
  - by exists f', v', d'.
Defined.

(** C5 on the example runs: [param_k] has six distinct whole values and
    becomes the integer range 1..6. *)
Lemma infer_param_space_domain_witness :
  _infer_param_space demo_repr runs_two_modes example_cols !! "param_k"
  = Some (IntRange 1 6).
Proof.
  destruct (infer_param_space_domain demo_repr runs_two_modes example_cols "param_k")
    as (_ & Hint & _).
  - by_decision.
  - vm_compute. discriminate.
  - rewrite Hint; [vm_compute; reflexivity|vm_compute; reflexivity|vm_compute; lia|].
    split; [|vm_compute; lia].
    apply forallb_is_whole. vm_compute. reflexivity.
Defined.

(** C7, the claim as worded fails: three features of equal mean absolute
    contribution are ranked param_c, param_a, param_b, which is not the
    ascending order of their names. *)
Lemma importance_ranking_tie_not_by_name :
  mean_abs 3 tied_shap_values = [750 # 2000; 750 # 2000; 750 # 2000]%Q
  ∧ (importance_ranking tied_table tied_shap_values).*1
    = ["param_c"; "param_a"; "param_b"]
  ∧ String.ltb "param_a" "param_c" = true.
Proof. split_and!; vm_compute; reflexivity. Qed.

(** C7 on the tied table: the ranking is a rearrangement of the features
    with their importances. *)
Lemma importance_ranking_descending_witness :
  importance_ranking tied_table tied_shap_values
  ≡ₚ zip tied_table.*1 (mean_abs 3 tied_shap_values).
Proof.
  apply (proj1 (importance_ranking_descending tied_table tied_shap_values)).
Defined.





(** * The further properties on the example runs *)

(** X2 on the tied table. *)
Lemma importance_bars_bounded_witness :
  (0 <= 750 # 2000)%Q
  ∧ (0 ≤ bar_len (imp_df tied_table tied_shap_values).*2 (750 # 2000) ≤ 25)%Z.
Proof.
  apply (importance_bars_bounded tied_table tied_shap_values
           ("param_c", (750 # 2000)%Q)).
  assert (importance_ranking tied_table tied_shap_values
          = [("param_c", 750 # 2000); ("param_a", 750 # 2000);
             ("param_b", 750 # 2000)]%Q) as -> by (vm_compute; reflexivity).
  left.
Defined.

(** X5 on the example runs: the value 3 of [param_k] lies in the range
    1..6. *)
Lemma infer_param_space_covers_observed_witness :
  ∃ x, num_of (PFloat 3) = Some x ∧ (inject_Z 1 <= x)%Q ∧ (x <= inject_Z 6)%Q.
Proof.
  apply (infer_param_space_covers_observed demo_repr runs_two_modes example_cols
           "param_k" (IntRange 1 6) (PFloat 3)).
  - vm_compute. reflexivity.
  - assert (dropna (col runs_two_modes "param_k")
            = [PFloat 1; PFloat 2; PFloat 3; PFloat 4; PFloat 5; PFloat 6])
      as -> by (vm_compute; reflexivity).
    do 2 right. left.
Defined.

(** X7 on the example runs: the first run has k = 1, and so has its trial. *)
Lemma add_past_trials_keeps_numeric_values_witness :
  ∃ (t : trial) v y,
    params t !! "param_k" = Some v ∧ num_of v = Some y ∧ (y == 1)%Q.
Proof.
  assert (∃ t trials,
            _add_past_trials demo_repr (λ _, None) runs_two_modes
              (_infer_param_space demo_repr runs_two_modes example_cols) "llm_f1"
            = Some (t :: trials)) as (t & trials & Htr)
    by (vm_compute; eexists _, _; reflexivity).
  destruct (add_past_trials_keeps_numeric_values demo_repr (λ _, None)
              runs_two_modes example_cols "llm_f1" (t :: trials) 0%nat
              (run "local" 1 (Some 0.5%Q)) t "param_k" (IntRange 1 6) 1%Q)
    as (v & y & Hv & Hy & Heq & _).
  - exact Htr.
  - vm_compute. reflexivity.
  - reflexivity.
  - vm_compute. reflexivity.
  - intros choices. discriminate.
  - vm_compute. reflexivity.
  - exists t, v, y. split; [exact Hv|]. split; [exact Hy|exact Heq].
Defined.

(** X8 and X10 on the example runs, without a surrogate. *)
Lemma suggest_next_at_most_n_witness :
  _suggest_next demo_repr low_end_sampler (λ _, None) (λ _, 0%Q)
    [Trial (<["query_mode" := PStr "hybrid"]> (<["param_k" := PInt 3]> ∅))
           (Some 0.7%Q)]
    (_infer_param_space demo_repr runs_two_modes example_cols)
    None example_cols 1 runs_two_modes
  = Some [(<["query_mode" := PStr "hybrid"]> (<["param_k" := PInt 3]> ∅), 0.7%Q)]
  ∧ (Z.of_nat (length [(<["query_mode" := PStr "hybrid"]>
                          (<["param_k" := PInt 3]> (∅ : gmap string pyval)),
                        0.7%Q)]) ≤ Z.max 1 0)%Z.
Proof.
  assert (_suggest_next demo_repr low_end_sampler (λ _, None) (λ _, 0%Q)
            [Trial (<["query_mode" := PStr "hybrid"]> (<["param_k" := PInt 3]> ∅))
                   (Some 0.7%Q)]
            (_infer_param_space demo_repr runs_two_modes example_cols)
            None example_cols 1 runs_two_modes
          = Some [(<["query_mode" := PStr "hybrid"]> (<["param_k" := PInt 3]> ∅),
                   0.7%Q)]) as Hret by (vm_compute; reflexivity).
  split; [exact Hret|].
  exact (suggest_next_at_most_n _ _ _ _ _ _ _ _ _ _ _ Hret).
Defined.

Lemma suggest_next_fallback_returns_study_trials_witness :
  ∃ t, t ∈ [Trial (<["query_mode" := PStr "hybrid"]> (<["param_k" := PInt 3]> ∅))
                  (Some 0.7%Q)]
       ∧ params t = <["query_mode" := PStr "hybrid"]> (<["param_k" := PInt 3]> ∅)
       ∧ value t = Some 0.7%Q.
Proof.
  eapply (suggest_next_fallback_returns_study_trials demo_repr low_end_sampler
            (λ _, None) (λ _, 0%Q)
            [Trial (<["query_mode" := PStr "hybrid"]> (<["param_k" := PInt 3]> ∅))
                   (Some 0.7%Q)]
            (_infer_param_space demo_repr runs_two_modes example_cols)
            example_cols 1 runs_two_modes
            [(<["query_mode" := PStr "hybrid"]> (<["param_k" := PInt 3]> ∅),
              0.7%Q)]).
  - vm_compute. reflexivity.
  - left.
Defined.

(** X9 on the example runs, with the encoded runs as training table and a
    surrogate that predicts 0 everywhere. *)
Lemma suggest_next_scored_sorted_and_distinct_witness :
  ∃ suggestions,
    _suggest_next demo_repr low_end_sampler (λ _, None) (λ _, 0%Q) []
      (_infer_param_space demo_repr runs_two_modes example_cols)
      (Some (encode_features demo_repr runs_two_modes example_cols))
      example_cols 1 runs_two_modes = Some suggestions
    ∧ length suggestions = 1%nat
    ∧ StronglySorted (λ a b, (b.2 <= a.2)%Q) suggestions
    ∧ NoDup ((λ x, config_key demo_repr example_cols x.1) <$> suggestions).
Proof.
  eexists. split; [vm_compute; reflexivity|]. split; [reflexivity|].
  eapply (suggest_next_scored_sorted_and_distinct demo_repr low_end_sampler
            (λ _, None) (λ _, 0%Q) []
            (_infer_param_space demo_repr runs_two_modes example_cols)
            (encode_features demo_repr runs_two_modes example_cols)
            example_cols 1 runs_two_modes).
  vm_compute. reflexivity.
Defined.

(** X11 on the example runs: [param_k] has a value in every run and is
    encoded as it stands. *)
Lemma encode_features_imputes_median_witness :
  ∃ m cells,
    median (values (floats (col runs_two_modes "param_k"))) = Some m
    ∧ ("param_k", cells) ∈ encode_features demo_repr runs_two_modes example_cols
    ∧ cells !! 0%nat = Some (Some 1%Q).
Proof.
  destruct (encode_features_imputes_median demo_repr runs_two_modes example_cols
              "param_k") as (m & cells & Hm & Hin & Hcells & _).
  - by_decision.
  - vm_compute. reflexivity.
  - vm_compute. discriminate.
  - exists m, cells. split_and!; [done..|].
    by apply (Hcells 0%nat (run "local" 1 (Some 0.5%Q))).
Defined.

(** X13 on the example runs: an unknown treatment name changes nothing. *)
Lemma phase4_dowhy_supplied_treatment_witness :
  phase4_dowhy demo_repr true runs_two_modes example_cols "llm_f1" (Some "speed")
  = phase4_dowhy demo_repr true runs_two_modes example_cols "llm_f1" None.
Proof.
  apply (phase4_dowhy_supplied_treatment demo_repr runs_two_modes example_cols
           "llm_f1" "speed").
  - cbn. lia.
  - by_decision.
  - discriminate.
Defined.

(** X14 on the example runs: the two query modes become numbers. *)
Lemma prepare_makes_treatment_numeric_witness :
  ∃ d, prepare demo_repr runs_two_modes example_cols "llm_f1" "query_mode" None
       = Estimating "query_mode" d
       ∧ length d = 5%nat
       ∧ is_numeric_dtype (col d "query_mode") = true.
Proof.
  assert (∃ d, prepare demo_repr runs_two_modes example_cols "llm_f1"
                 "query_mode" None = Estimating "query_mode" d) as [d Hp]
    by (vm_compute; eexists; reflexivity).
  destruct (prepare_makes_treatment_numeric demo_repr runs_two_modes example_cols
              "llm_f1" "query_mode" None "query_mode" d Hp) as (_ & Hlen & Hnum).
  exists d. split; [exact Hp|]. split; [|exact Hnum].
  rewrite Hlen. vm_compute. reflexivity.
Defined.

(** X15: an ATE of 1 and a new effect of 0.9. *)
Lemma refutation_passes_means_close_witness :
  ∃ e, Some 0.9%Q = Some e
       ∧ ¬ (1 == 0)%Q
       ∧ (0 < e * 1)%Q
       ∧ (Qabs 1 * 0.5 < Qabs e)%Q
       ∧ (Qabs e < Qabs 1 * 1.5)%Q.
Proof.
  apply (refutation_passes_means_close (Some 0.9%Q) 1%Q).
  vm_compute. reflexivity.
Defined.

(** X16 on the example runs: hybrid sorts before local and becomes 0. *)
Lemma ordinal_two_categories_witness :
  ∃ codes,
    ordinal demo_repr (col runs_two_modes "query_mode") = Some codes
    ∧ codes !! 0%nat = Some (Some (PInt 1))
    ∧ codes !! 1%nat = Some (Some (PInt 0)).
Proof.
  destruct (ordinal_two_categories demo_repr (col runs_two_modes "query_mode")
              "local" "hybrid") as (codes & Hord & _ & Hcodes).
  - vm_compute. reflexivity.
  - exists codes. split_and!; [done|..].
    + by rewrite (Hcodes 0%nat (Some (PStr "local"))).
    + by rewrite (Hcodes 1%nat (Some (PStr "hybrid"))).
Defined.

(** X17: [param_chunk_size] next to [param_chunk]. *)
Lemma encode_cell_prefix_gives_indicator_witness :
  encode_cell demo_repr (λ _, None) ["param_chunk"; "param_chunk_size"]
    (<["param_chunk" := PFloat 2]> (<["param_chunk_size" := PFloat 512]> ∅))
    ("param_chunk_size", [Some 256%Q; Some 512%Q])
  = Some (Some 0%Q)
  ∨ encode_cell demo_repr (λ _, None) ["param_chunk"; "param_chunk_size"]
      (<["param_chunk" := PFloat 2]> (<["param_chunk_size" := PFloat 512]> ∅))
      ("param_chunk_size", [Some 256%Q; Some 512%Q])
    = Some (Some 1%Q).
Proof.
  apply (encode_cell_prefix_gives_indicator demo_repr (λ _, None)
           ["param_chunk"; "param_chunk_size"]
           (<["param_chunk" := PFloat 2]> (<["param_chunk_size" := PFloat 512]> ∅))
           (<["param_chunk" := PFloat 2]> (<["param_chunk_size" := PFloat 512]> ∅))
           ("param_chunk_size", [Some 256%Q; Some 512%Q]) "param_chunk").
  - by_decision.
  - vm_compute. reflexivity.
Defined.

(** X20: two documents, both retrieved. *)
Lemma compute_run_metrics_perfect_witness :
  (recall (compute_run_metrics (λ s, s) ["a.pdf"; "b.pdf"] ["a.pdf"; "b.pdf"]) == 1)%Q
  ∧ (precision (compute_run_metrics (λ s, s) ["a.pdf"; "b.pdf"] ["a.pdf"; "b.pdf"])
     == 1)%Q
  ∧ (f1 (compute_run_metrics (λ s, s) ["a.pdf"; "b.pdf"] ["a.pdf"; "b.pdf"]) == 1)%Q
  ∧ hit (compute_run_metrics (λ s, s) ["a.pdf"; "b.pdf"] ["a.pdf"; "b.pdf"]) = true
  ∧ (mrr (compute_run_metrics (λ s, s) ["a.pdf"; "b.pdf"] ["a.pdf"; "b.pdf"]) == 1)%Q.
Proof.
  apply (compute_run_metrics_perfect (λ s, s) ["a.pdf"; "b.pdf"]). discriminate.
Defined.
